(** * Cross-lingual information retrieval: feature pipeline

    A shallow embedding of the Python sources

      - [src/data/dataset_class.py]             (class [DataSet])
      - [src/features/feature_generation_class.py] (class [FeatureGeneration])
      - [src/data/preprocess_data.py]           (preprocessing functions)

    Python exceptions are values of the error monad [result]; pandas
    frames are column stores with an explicit row index; Python
    dictionaries are [gmap]s when they are only looked up and
    insertion-ordered association lists when they are built and
    enumerated. *)

From Stdlib Require Import ZArith QArith Lia Ascii String.
From Stdlib Require PrimFloat.
From stdpp Require Import base option list strings gmap.

Open Scope string_scope.
Open Scope list_scope.

(** ** Exceptions *)

Inductive exn : Type :=
| KeyError
| ValueError
| IndexError
| InvalidIndexError
| TypeError.

Inductive result (A : Type) : Type :=
| Ok (a : A)
| Raise (e : exn).

Arguments Ok {A} a.
Arguments Raise {A} e.

(** Sequencing: the first exception raised is the outcome. *)
#[global] Instance result_ret : MRet result := fun _ a => Ok a.
#[global] Instance result_bind : MBind result := fun _ _ k m =>
  match m with
  | Ok a => k a
  | Raise e => Raise e
  end.

(** A Python [for] loop whose body may raise: the first exception ends
    the loop. *)
Fixpoint for_each {A S : Type} (body : S → A → result S) (s : S) (l : list A)
  : result S :=
  match l with
  | [] => Ok s
  | x :: l' => s' ← body s x; for_each body s' l'
  end.

(** ** Insertion-ordered dictionaries *)
Module ODict.
Section ODict.
Context {V : Type}.

Definition t : Type := list (string * V).

Fixpoint get (k : string) (d : t) : option V :=
  match d with
  | [] => None
  | (k', v) :: d' => if decide (k' = k) then Some v else get k d'
  end.

Definition keys (d : t) : list string := d.*1.
Definition values (d : t) : list V := d.*2.

(** [d[k]]: a missing key raises [KeyError]. *)
Definition getitem (d : t) (k : string) : result V :=
  match get k d with
  | Some v => Ok v
  | None => Raise KeyError
  end.

(** [d[k] = v]: an existing key keeps its place, a new key goes last. *)
Fixpoint setitem (d : t) (k : string) (v : V) : t :=
  match d with
  | [] => [(k, v)]
  | (k', v') :: d' =>
      if decide (k' = k) then (k', v) :: d' else (k', v') :: setitem d' k v
  end.

(** A run of assignments [d[k] = v]. *)
Definition assign_all (d : t) (kvs : list (string * V)) : t :=
  fold_left (fun d kv => setitem d kv.1 kv.2) kvs d.
End ODict.
Arguments t V : clear implicits.
End ODict.

(** ** pandas frames, as far as [DataSet] uses them *)
Module Pandas.

Inductive cell : Type :=
| NaN
| Num (z : Z)
| Str (s : string).

(** A frame is a row index (labels) and a list of labelled columns;
    column labels may repeat, as after [concat(axis=1)]. *)
Record DataFrame : Type := mkDataFrame
  { index : list nat;
    columns : list (string * list cell) }.

Definition nrows (df : DataFrame) : nat := length (index df).
Definition names (df : DataFrame) : list string := (columns df).*1.

(** Every column has one cell per row. *)
Definition well_formed (df : DataFrame) : Prop :=
  Forall (fun c => length c.2 = nrows df) (columns df).

(** [df[c]] as a list of cells, for the first column labelled [c]. *)
Definition column (c : string) (df : DataFrame) : option (list cell) :=
  ODict.get c (columns df).

(** The global NumPy generator is a tape of raw draws; an exhausted
    tape keeps answering 0. *)
Definition rng : Type := list nat.

Definition randint (bound : nat) (g : rng) : nat * rng :=
  match g with
  | [] => (0, [])
  | r :: g' => (r mod bound, g')
  end.

(** [k] positions drawn without replacement from [pool]. *)
Fixpoint choice (k : nat) (pool : list nat) (g : rng) : list nat * rng :=
  match k with
  | O => ([], g)
  | S k' =>
      let '(i, g1) := randint (length pool) g in
      let '(ps, g2) := choice k' (delete i pool) g1 in
      (nth i pool 0 :: ps, g2)
  end.

(** Positional selection of rows (the labels travel with the rows). *)
Definition select {A : Type} (d : A) (ps : list nat) (l : list A) : list A :=
  map (fun p => nth p l d) ps.

Definition take_rows (ps : list nat) (df : DataFrame) : DataFrame :=
  {| index := select 0 ps (index df);
     columns := map (fun c => (c.1, select NaN ps c.2)) (columns df) |}.

(** [df.sample(n)]: without replacement; a negative [n] or one larger
    than the population raises [ValueError]. *)
Definition sample (n : Z) (df : DataFrame) (g : rng) : result (DataFrame * rng) :=
  if (n <? 0)%Z then Raise ValueError
  else if (Z.of_nat (nrows df) <? n)%Z then Raise ValueError
  else
    let '(ps, g') := choice (Z.to_nat n) (seq 0 (nrows df)) g in
    Ok (take_rows ps df, g').

(** [df.reset_index(drop=True)] *)
Definition reset_index (df : DataFrame) : DataFrame :=
  {| index := seq 0 (nrows df); columns := columns df |}.

Definition position (l : nat) (idx : list nat) : option nat :=
  list_find (fun l' => l' = l) idx ≫= fun p => Some p.1.

(** Re-align a column to a new row index; rows without a partner are
    filled with [NaN]. *)
Definition reindex (old : list nat) (vals : list cell) (new : list nat)
  : list cell :=
  map (fun l => match position l old with
                | Some p => nth p vals NaN
                | None => NaN
                end) new.

Definition union_labels {A : Type} `{EqDecision A} (a b : list A) : list A :=
  a ++ filter (fun x => x ∉ a) b.

(** [pd.concat([a, b], axis=1)]: outer join on the row labels, the
    columns of [a] followed by the columns of [b]. *)
Definition concat_columns (a b : DataFrame) : DataFrame :=
  let idx := if decide (index a = index b) then index a
             else union_labels (index a) (index b) in
  {| index := idx;
     columns :=
       map (fun c => (c.1, reindex (index a) c.2 idx)) (columns a) ++
       map (fun c => (c.1, reindex (index b) c.2 idx)) (columns b) |}.

(** [df[name] = values] for an array of one column of values: the
    column labelled [name] is overwritten; without one, a new last column
    is added. A length mismatch raises [ValueError], and so does a label
    that the frame has more than once. *)
Definition setitem (df : DataFrame) (name : string) (vals : list cell)
  : result DataFrame :=
  if decide (length vals = nrows df) then
    match filter (fun label => label = name) (names df) with
    | [] => Ok {| index := index df; columns := columns df ++ [(name, vals)] |}
    | [_] =>
        Ok {| index := index df;
              columns :=
                map (fun c => if decide (c.1 = name) then (c.1, vals) else c)
                    (columns df) |}
    | _ => Raise ValueError
    end
  else Raise ValueError.

Definition column_or_nan (c : string) (df : DataFrame) : list cell :=
  default (replicate (nrows df) NaN) (column c df).

(** [pd.concat([a, b])]: rows of [a] above rows of [b]. Equal column
    labels are matched by position; otherwise the labels are united
    (outer join, missing cells [NaN]), which pandas refuses with
    [InvalidIndexError] when a frame repeats a label. *)
Definition concat_rows (a b : DataFrame) : result DataFrame :=
  if decide (names a = names b) then
    Ok {| index := index a ++ index b;
          columns := zip_with (fun ca cb => (ca.1, ca.2 ++ cb.2))
                              (columns a) (columns b) |}
  else if decide (NoDup (names a) ∧ NoDup (names b)) then
    Ok {| index := index a ++ index b;
          columns := map (fun c => (c, column_or_nan c a ++ column_or_nan c b))
                         (union_labels (names a) (names b)) |}
  else Raise InvalidIndexError.

(** [np.zeros((k, 1), dtype=np.int8)] as a column of cells. *)
Definition np_zeros (k : nat) : list cell := replicate k (Num 0).

End Pandas.

(** ** [dataset_class.py] *)
Module DataSetClass.
Import Pandas.

(** [dataset = None] stands for the placeholder stored by [__init__]
    (the class object [pd.DataFrame], not a frame). *)
Record DataSet : Type := mkDataSet
  { preprocessed_dataframe : DataFrame;
    preprocessed_source : DataFrame;
    preprocessed_target : DataFrame;
    dataset : option DataFrame }.

Definition init (preprocessed_class : DataFrame * DataFrame * DataFrame)
  : DataSet :=
  let '(df, src, tgt) := preprocessed_class in
  {| preprocessed_dataframe := df;
     preprocessed_source := src;
     preprocessed_target := tgt;
     dataset := None |}.

Definition get_sample (n : Z) (self : DataSet) (g : rng)
  : result (DataSet * rng) :=
  '(pairs, g1) ← sample n (preprocessed_dataframe self) g;
  let random_sample_right := reset_index pairs in
  '(src, g2) ← sample n (preprocessed_source self) g1;
  '(tgt, g3) ← sample n (preprocessed_target self) g2;
  let random_sample_wrong := concat_columns (reset_index src) (reset_index tgt) in
  random_sample_wrong ←
     setitem random_sample_wrong "Translation"
             (np_zeros (nrows random_sample_wrong));
  both ← concat_rows random_sample_right random_sample_wrong;
  Ok ({| preprocessed_dataframe := preprocessed_dataframe self;
         preprocessed_source := preprocessed_source self;
         preprocessed_target := preprocessed_target self;
         dataset := Some (reset_index both) |}, g3).

End DataSetClass.

(** ** [feature_generation_class.py] *)
Module FeatureGenerationClass.

(** The double quote, for the labels that contain it. *)
Definition dquote : string := String (ascii_of_nat 34) EmptyString.

Definition init_feature_difference_list : list string :=
  [ "number_punctuations_total"; "number_words";
    "number_unique_words"; "number_!"; "number_" +:+ dquote;
    "number_#"; "number_$"; "number_%";
    "number_&"; "number_'"; "number_(";
    "number_)"; "number_*"; "number_+";
    "number_,"; "number_-"; "number_.";
    "number_/"; "number_:"; "number_;";
    "number_<"; "number_="; "number_>";
    "number_?"; "number_@"; "number_[";
    "number_\"; "number_]"; "number_^";
    "number__"; "number_`"; "number_{";
    "number_|"; "number_}"; "number_~";
    "number_characters"; "characters_avg";
    "number_ADJ"; "number_ADP";
    "number_ADV"; "number_AUX"; "number_CONJ";
    "number_CCONJ"; "number_DET"; "number_INTJ";
    "number_NOUN"; "number_NUM"; "number_PRT";
    "number_PRON"; "number_PROPN"; "number_SCONJ";
    "number_SYM"; "number_VERB"; "number_X";
    "number_Pres"; "number_Past"; "number_";
    "score_polarity"; "score_subjectivity";
    "number_stopwords" ].

Section WithSeries.
(** The columns are pandas Series; the three comparison functions
    come from [src/features/sentence_based.py], and [series_add] is
    the Series addition [+]. *)
Context {Series : Type}.
Variable difference_numerical : Series → Series → Series.
Variable relative_difference_numerical : Series → Series → Series.
Variable normalized_difference_numerical :
  Series → Series → Series → Series → Series.
Variable series_add : Series → Series → Series.

(** The column view of a frame: ordered labels with their Series. *)
Record FeatureGeneration : Type := mkFeatureGeneration
  { preprocessed_dataset : ODict.t Series;
    feature_dataframe : ODict.t Series;
    feature_difference_list : list string }.

Definition init (dataset : ODict.t Series) : FeatureGeneration :=
  {| preprocessed_dataset := dataset;
     feature_dataframe := [];
     feature_difference_list := init_feature_difference_list |}.

(** One turn of the loop of [feature_generation]. *)
Definition feature_step (ds : ODict.t Series) (fd : ODict.t Series)
           (feature : string) : result (ODict.t Series) :=
  s ← ODict.getitem ds (feature +:+ "_source");
  t ← ODict.getitem ds (feature +:+ "_target");
  let fd := ODict.setitem fd (feature +:+ "_difference")
                          (difference_numerical s t) in
  s ← ODict.getitem ds (feature +:+ "_source");
  t ← ODict.getitem ds (feature +:+ "_target");
  let fd := ODict.setitem fd (feature +:+ "_difference_relative")
                          (relative_difference_numerical s t) in
  s ← ODict.getitem ds (feature +:+ "_source");
  t ← ODict.getitem ds (feature +:+ "_target");
  ps ← ODict.getitem ds "number_punctuations_total_source";
  ws ← ODict.getitem ds "number_words_source";
  pt ← ODict.getitem ds "number_punctuations_total_target";
  wt ← ODict.getitem ds "number_words_target";
  Ok (ODict.setitem fd (feature +:+ "_difference_normalized")
                    (normalized_difference_numerical
                       s t (series_add ps ws) (series_add pt wt))).

Definition feature_generation (self : FeatureGeneration)
  : result FeatureGeneration :=
  fd ← for_each (feature_step (preprocessed_dataset self))
                (feature_dataframe self) (feature_difference_list self);
  tr ← ODict.getitem (preprocessed_dataset self) "Translation";
  Ok {| preprocessed_dataset := preprocessed_dataset self;
        feature_dataframe := ODict.setitem fd "Translation" tr;
        feature_difference_list := feature_difference_list self |}.
End WithSeries.

End FeatureGenerationClass.

(** ** [preprocess_data.py]

    A pandas Series with the default index is the list of its values and
    [Series.apply] is [map]; the [@timer] decorator only reports the
    running time and hands the value through. *)
Module PreprocessData.

(** *** Punctuation counts *)

(** [string.punctuation] *)
Definition string_punctuation : string :=
  "!" +:+ FeatureGenerationClass.dquote +:+ "#$%&'()*+,-./:;<=>?@[\]^_`{|}~".

(** [list(s)]: the one-character strings of [s]. *)
Definition py_list (s : string) : list string :=
  map (fun c => String c EmptyString) (list_ascii_of_string s).

(** [l.remove(x)]: drops the first [x]; [ValueError] without one. *)
Fixpoint list_remove (x : string) (l : list string) : result (list string) :=
  match l with
  | [] => Raise ValueError
  | y :: l' =>
      if decide (y = x) then Ok l'
      else r ← list_remove x l'; Ok (y :: r)
  end.

Definition number_punctuations_total (sentence_vector : list (list string))
  : result (list nat) :=
  let list_pm := py_list string_punctuation in
  list_pm ← list_remove "." list_pm;
  let list_pm := list_pm ++ ["..."] in
  Ok (map (fun sentence => length (filter (fun word => word ∈ list_pm) sentence))
          sentence_vector).

(** *** Characters per word *)

(** IEEE doubles: the finite values are idealised as rationals (no
    rounding), the three special values are kept. *)
Inductive float64 : Type :=
| Fin (q : Q)
| Inf
| NInf
| Nan.

Definition np_nan : float64 := Nan.
Definition np_inf : float64 := Inf.
(** [np.log(0)] *)
Definition np_log_0 : float64 := NInf.

(** [x / y] on integer counts. *)
Definition true_divide (x y : Z) : float64 :=
  if (y =? 0)%Z then
    if (x =? 0)%Z then Nan else if (0 <? x)%Z then Inf else NInf
  else Fin (inject_Z x / inject_Z y).

(** Series division: positions without a partner give [NaN]. *)
Fixpoint series_div (a b : list Z) : list float64 :=
  match a, b with
  | x :: a', y :: b' => true_divide x y :: series_div a' b'
  | [], _ => map (fun _ => Nan) b
  | _, [] => map (fun _ => Nan) a
  end.

Definition float_matches (x y : float64) : bool :=
  match x, y with
  | Fin p, Fin q => Qeq_bool p q
  | Inf, Inf | NInf, NInf | Nan, Nan => true
  | _, _ => false
  end.

(** [Series.replace(to_replace, value)] *)
Definition replace (to_replace value : float64) (s : list float64)
  : list float64 :=
  map (fun x => if float_matches x to_replace then value else x) s.

Definition average_characters (character_vector word_vector : list Z)
  : list float64 :=
  replace np_log_0 (Fin 0)
    (replace np_inf (Fin 0)
       (replace np_nan (Fin 0) (series_div character_vector word_vector))).

(** *** Loading and normalising the embeddings

    The two pickled objects are the arguments. The array is stored as
    rows of doubles or as rows of integers; doubles are the IEEE binary64
    numbers of [PrimFloat], with their rounding, infinities and NaN. *)

Inductive ndarray : Type :=
| of_float64 (rows : list (list PrimFloat.float))
| of_int64 (rows : list (list Z)).

(** [np.vstack]: needs at least one row, and rows of one length. *)
Definition vstack {A : Type} (rows : list (list A)) : result (list (list A)) :=
  match rows with
  | [] => Raise ValueError
  | r :: rs =>
      if forallb (fun r' => (length r' =? length r)%nat) rs then Ok rows
      else Raise ValueError
  end.

(** [np.vstack] keeps the type of the entries. *)
Definition np_vstack (embedding_array : ndarray) : result ndarray :=
  match embedding_array with
  | of_float64 rows => rows ← vstack rows; Ok (of_float64 rows)
  | of_int64 rows => rows ← vstack rows; Ok (of_int64 rows)
  end.

Definition np_square (row : list PrimFloat.float) : list PrimFloat.float :=
  map (fun x => PrimFloat.mul x x) row.

Section NumPy.
(** [np.sum(_, axis=1)] on one row. The order in which NumPy adds the
    entries of a row is the library's own, so the sum of a row is a
    parameter. *)
Variable np_sum : list PrimFloat.float → PrimFloat.float.

(** The division [array /= norms] is done in place: on an integer
    array its float64 result cannot be stored and NumPy raises a
    [TypeError] before any entry is written; the squares, sums and roots
    computed before it raise nothing. *)
Definition normalize_array (array : ndarray) : result ndarray :=
  match array with
  | of_float64 rows =>
      let norms := map (fun row => PrimFloat.sqrt (np_sum (np_square row))) rows in
      let norms := map (fun x => if PrimFloat.eqb x PrimFloat.zero
                                 then PrimFloat.one else x) norms in
      Ok (of_float64
            (zip_with (fun row norm => map (fun x => PrimFloat.div x norm) row)
                      rows norms))
  | of_int64 _ => Raise TypeError
  end.

Definition load_embeddings (embedding_array : ndarray)
           (embedding_dictionary : gmap string Z)
  : result (ndarray * gmap string Z) :=
  array ← np_vstack embedding_array;
  embedding_array_normalized ← normalize_array array;
  Ok (embedding_array_normalized, embedding_dictionary).
End NumPy.

(** *** Word embeddings *)

(** Truth value of a Python [int]. *)
Definition bool_of_int (i : Z) : bool := negb (i =? 0)%Z.

(** [array[i]] for an integer [i]: negative indices count from the
    end, anything out of range raises [IndexError]. *)
Definition ndarray_row {A : Type} (array : list A) (i : Z) : result A :=
  let n := Z.of_nat (length array) in
  let j := if (i <? 0)%Z then (i + n)%Z else i in
  if (j <? 0)%Z then Raise IndexError
  else match array !! Z.to_nat j with
       | Some row => Ok row
       | None => Raise IndexError
       end.

(** The frame built from the dictionary has its keys as columns. *)
Definition token_list_embedding {A : Type} (embedding_array : list (list A))
           (embedding_dictionary : gmap string Z) (token_list : list string)
  : result (ODict.t (list A)) :=
  for_each
    (fun word_embedding_dictionary token =>
       match embedding_dictionary !! token with
       | Some i =>
           if bool_of_int i then
             row ← ndarray_row embedding_array i;
             Ok (ODict.setitem word_embedding_dictionary token row)
           else Ok word_embedding_dictionary
       | None => Ok word_embedding_dictionary
       end)
    [] token_list.

Definition word_embeddings {A : Type} (token_vector : list (list string))
           (embedding_array : list (list A))
           (embedding_dictionary : gmap string Z)
  : result (list (ODict.t (list A))) :=
  mapM (token_list_embedding embedding_array embedding_dictionary) token_vector.

(** *** Translation dictionaries

    Embedding entries are idealised as rationals, so that the cosine
    similarities can be computed and compared. *)

(** [set(l)] enumerated: Python leaves the order open, the model
    takes first occurrences; the loops over one set see one order. *)
Definition py_set (l : list string) : list string := remove_dups l.

Definition dot (u v : list Q) : Q :=
  fold_right Qplus 0%Q (zip_with Qmult u v).

(** [np.dot(v, np.transpose(m))] for a vector and a matrix given by
    its rows; an empty matrix or a row of another length than [v] is a
    shape mismatch. *)
Definition np_dot (v : list Q) (m : list (list Q)) : result (list Q) :=
  match m with
  | [] => Raise ValueError
  | _ =>
      if forallb (fun row => (length row =? length v)%nat) m
      then Ok (map (dot v) m)
      else Raise ValueError
  end.

Fixpoint insert_by (key : nat → Q) (i : nat) (l : list nat) : list nat :=
  match l with
  | [] => [i]
  | j :: l' =>
      if Qle_bool (key i) (key j) then i :: l
      else j :: insert_by key i l'
  end.

(** [np.argsort]: the positions in ascending order of their values
    (ties in positional order). *)
Definition argsort (a : list Q) : list nat :=
  fold_right (insert_by (fun i => nth i a 0%Q)) [] (seq 0 (length a)).

(** State of the loop that collects the tokens with an embedding:
    next index, token -> embedding, index -> token. *)
Definition subset_state : Type :=
  nat * ODict.t (list Q) * gmap nat string.

Definition subset_step (embedding_array_normalized : list (list Q))
           (embedding_dictionary : gmap string Z)
           (st : subset_state) (token : string) : result subset_state :=
  let '(index, word_embedding_dictionary, embedding_subset_dictionary) := st in
  match embedding_dictionary !! token with
  | Some i =>
      if bool_of_int i then
        row ← ndarray_row embedding_array_normalized i;
        Ok (S index,
            ODict.setitem word_embedding_dictionary token row,
            <[index := token]> embedding_subset_dictionary)
      else Ok st
  | None => Ok st
  end.

Definition translation (token : string)
           (word_embedding_dictionary_source : ODict.t (list Q))
           (embedding_subset_target : list (list Q))
           (embedding_subset_dictionary_target : gmap nat string)
  : result string :=
  norm_src_word_emb ← ODict.getitem word_embedding_dictionary_source token;
  similarity_cos ← np_dot norm_src_word_emb embedding_subset_target;
  match argsort (map Qopp similarity_cos) with
  | [] => Raise IndexError
  | most_similar_trg_index :: _ =>
      match embedding_subset_dictionary_target !! most_similar_trg_index with
      | Some t => Ok t
      | None => Raise KeyError
      end
  end.

Definition translation_step (embedding_dictionary : gmap string Z)
           (word_embedding_dictionary : ODict.t (list Q))
           (embedding_subset_other : list (list Q))
           (embedding_subset_dictionary_other : gmap nat string)
           (translations : gmap string string) (token : string)
  : result (gmap string string) :=
  match embedding_dictionary !! token with
  | Some i =>
      if bool_of_int i then
        t ← translation token word_embedding_dictionary
              embedding_subset_other embedding_subset_dictionary_other;
        Ok (<[token := t]> translations)
      else Ok translations
  | None => Ok translations
  end.

Definition create_translation_dictionary
           (token_vector_source token_vector_target : list (list string))
           (embedding_array_normalized_source : list (list Q))
           (embedding_dictionary_source : gmap string Z)
           (embedding_array_normalized_target : list (list Q))
           (embedding_dictionary_target : gmap string Z)
  : result (gmap string string * gmap string string) :=
  let unique_token_source := py_set (concat token_vector_source) in
  let unique_token_target := py_set (concat token_vector_target) in
  '(_, word_embedding_dictionary_source, embedding_subset_dictionary_source) ←
    for_each (subset_step embedding_array_normalized_source
                          embedding_dictionary_source)
             (0, [], ∅) unique_token_source;
  '(_, word_embedding_dictionary_target, embedding_subset_dictionary_target) ←
    for_each (subset_step embedding_array_normalized_target
                          embedding_dictionary_target)
             (0, [], ∅) unique_token_target;
  let embedding_subset_source := ODict.values word_embedding_dictionary_source in
  let embedding_subset_target := ODict.values word_embedding_dictionary_target in
  translation_to_target_source ←
    for_each (translation_step embedding_dictionary_source
                               word_embedding_dictionary_source
                               embedding_subset_target
                               embedding_subset_dictionary_target)
             ∅ unique_token_source;
  translation_to_source_target ←
    for_each (translation_step embedding_dictionary_target
                               word_embedding_dictionary_target
                               embedding_subset_source
                               embedding_subset_dictionary_source)
             ∅ unique_token_target;
  Ok (translation_to_target_source, translation_to_source_target).

(** *** Translating token lists *)

(** [d[k]] on a dictionary that is only read. *)
Definition dict_getitem {V : Type} (d : gmap string V) (k : string) : result V :=
  match d !! k with
  | Some v => Ok v
  | None => Raise KeyError
  end.

(** [try: body  except KeyError: handler] *)
Definition try_except_KeyError {A : Type} (body handler : result A) : result A :=
  match body with
  | Raise KeyError => handler
  | r => r
  end.

Definition calculate_translations (word_list : list string)
           (translation_dictionary : gmap string string)
  : result (list string) :=
  for_each
    (fun translation_list word =>
       try_except_KeyError
         (t ← dict_getitem translation_dictionary word;
          Ok (translation_list ++ [t]))
         (Ok translation_list))
    [] word_list.

Definition translate_words (token_vector : list (list string))
           (translation_dictionary : gmap string string)
  : result (list (list string)) :=
  mapM (fun token_list => calculate_translations token_list translation_dictionary)
       token_vector.

End PreprocessData.


(** ** [preprocess_data.py]: cleaning and counting tokens

    Python strings are the strings of their UTF-8 bytes: equality,
    substring tests and the deletion of ASCII characters agree on the
    bytes and on the code points. *)
Module PreprocessText.
Import PreprocessData.

(** [sub in s], for two strings. *)
Fixpoint str_contains (s sub : string) : bool :=
  String.prefix sub s
  || match s with
     | EmptyString => false
     | String _ s' => str_contains s' sub
     end.

(** [string.punctuation + "’" + "..." + "'"] *)
Definition punctuations : string :=
  string_punctuation +:+ "’" +:+ "..." +:+ "'".

Definition remove_punctuation (token_vector : list (list string))
  : list (list string) :=
  map (fun sentence =>
         filter (fun word => str_contains punctuations word = false) sentence)
      token_vector.

Definition remove_stopwords (token_vector : list (list string))
           (stopwords_language : list string) : list (list string) :=
  map (fun sentence => filter (fun word => word ∉ stopwords_language) sentence)
      token_vector.

(** [string.digits] *)
Definition string_digits : string := "0123456789".

Fixpoint str_member (c : ascii) (s : string) : bool :=
  match s with
  | EmptyString => false
  | String c' s' => if decide (c' = c) then true else str_member c s'
  end.

(** [word.translate(str.maketrans('', '', deletechars))]: the characters
    of [deletechars] are deleted. *)
Fixpoint translate_delete (deletechars : string) (word : string) : string :=
  match word with
  | EmptyString => EmptyString
  | String c word' =>
      if str_member c deletechars then translate_delete deletechars word'
      else String c (translate_delete deletechars word')
  end.

Definition remove_numbers (token_vector : list (list string))
  : list (list string) :=
  let translation_table := translate_delete string_digits in
  map (fun sentence => map translation_table sentence) token_vector.

Definition number_words (sentence_vector : list (list string)) : list nat :=
  map (fun sentence =>
         length (filter (fun word => str_contains string_punctuation word = false)
                        sentence))
      sentence_vector.

(** A string as an entry of a NumPy array of strings: the entries
    have one width and are padded with NUL characters, so the NUL
    characters at the end of a string are lost. *)
Fixpoint rstrip_nul (s : string) : string :=
  match s with
  | EmptyString => EmptyString
  | String c s' =>
      match rstrip_nul s' with
      | EmptyString => if Ascii.eqb c zero then EmptyString else String c EmptyString
      | rest => String c rest
      end
  end.

(** [np.unique] makes an array of the words and keeps one copy of each
    value; its sorting does not show in the length taken of it. *)
Definition np_unique (l : list string) : list string :=
  remove_dups (map rstrip_nul l).

Definition number_unique_words (sentence_vector : list (list string)) : list nat :=
  map (fun sentence =>
         length (np_unique
                   (filter (fun word => str_contains string_punctuation word = false)
                           sentence)))
      sentence_vector.

Definition number_punctuation_marks (sentence_vector : list (list string))
           (punctuation_mark : string) : list nat :=
  map (fun sentence => length (filter (fun word => word = punctuation_mark) sentence))
      sentence_vector.

(** A byte [10xxxxxx] continues a code point. *)
Definition is_continuation (c : ascii) : bool :=
  match c with
  | Ascii _ _ _ _ _ _ b6 b7 => b7 && negb b6
  end.

(** [len(word)]: the number of code points. *)
Fixpoint py_len (word : string) : nat :=
  match word with
  | EmptyString => 0
  | String c word' => (if is_continuation c then 0 else 1) + py_len word'
  end.

Definition number_characters (sentence_vector : list (list string)) : list nat :=
  map (fun sentence =>
         sum_list (map py_len
                       (filter (fun word => str_contains string_punctuation word = false)
                               sentence)))
      sentence_vector.

Definition number_stopwords (sentence_vector : list (list string))
           (stopwords_language : list string) : list nat :=
  map (fun sentence => length (filter (fun word => word ∈ stopwords_language) sentence))
      sentence_vector.

End PreprocessText.


(** ** [preprocess_data.py]: the average sentence embedding

    The frames are those [word_embeddings] builds: one column per token,
    one row per embedding dimension; doubles are idealised as rational
    numbers. *)
Module SentenceEmbedding.
Import PreprocessData.
Local Open Scope Q_scope.

(** The number of rows of a frame built from a dictionary of columns;
    a frame without columns has no rows. *)
Definition frame_rows (frame : ODict.t (list Q)) : nat :=
  match frame with
  | [] => 0%nat
  | (_, column) :: _ => length column
  end.

(** The cells of row [j], one per column. *)
Definition frame_row (frame : ODict.t (list Q)) (j : nat) : list Q :=
  map (fun column => nth j column 0) (ODict.values frame).

(** [frame.mean(axis=1)]: the mean of every row over the columns. *)
Definition mean_axis1 (frame : ODict.t (list Q)) : list Q :=
  map (fun j => fold_right Qplus 0 (frame_row frame j)
                / inject_Z (Z.of_nat (length frame)))
      (seq 0 (frame_rows frame)).

Definition sentence_embedding_average
           (embedding_token_vector : list (ODict.t (list Q)))
  : list (list (list Q)) :=
  map (fun embedding_token => [mean_axis1 embedding_token]) embedding_token_vector.

End SentenceEmbedding.

(** * Vocabulary of the properties

    The predicates and functions the statements below are written with,
    and the inputs the examples run on. *)

(** Decidable closed facts, by evaluation. *)
Ltac by_compute := apply (bool_decide_unpack _); vm_compute; exact I.

Module PunctuationSpec.
Import PreprocessData.

(** The count the documentation describes: the full stop is not
    counted, the ellipsis and every other punctuation mark is. *)
Definition contribution (word : string) : nat :=
  if decide (word = ".") then 0
  else if decide (word = "...") then 1
  else if decide (word ∈ py_list string_punctuation) then 1
  else 0.

End PunctuationSpec.

Module AverageCharactersSpec.
Import PreprocessData.

Definition is_finite (x : float64) : Prop :=
  match x with
  | Fin _ => True
  | _ => False
  end.

(** The three replacements applied to one value. *)
Definition scrub (x : float64) : float64 :=
  match x with
  | Fin q => Fin q
  | _ => Fin 0
  end.

End AverageCharactersSpec.

Module FeatureGenerationSpec.
Import FeatureGenerationClass.

(** The three labels written for a stem. *)
Definition derived_labels (feature : string) : list string :=
  [feature +:+ "_difference";
   feature +:+ "_difference_relative";
   feature +:+ "_difference_normalized"].

Section WithSeries.
Context {Series : Type}.
Variable difference_numerical : Series → Series → Series.
Variable relative_difference_numerical : Series → Series → Series.
Variable normalized_difference_numerical :
  Series → Series → Series → Series → Series.
Variable series_add : Series → Series → Series.

(** The three columns one turn of the loop writes, when the dataset
    has the columns the turn reads. *)
Definition derived_columns (ds : ODict.t Series) (feature : string)
  : option (list (string * Series)) :=
  s ← ODict.get (feature +:+ "_source") ds;
  t ← ODict.get (feature +:+ "_target") ds;
  ps ← ODict.get "number_punctuations_total_source" ds;
  ws ← ODict.get "number_words_source" ds;
  pt ← ODict.get "number_punctuations_total_target" ds;
  wt ← ODict.get "number_words_target" ds;
  Some [(feature +:+ "_difference", difference_numerical s t);
        (feature +:+ "_difference_relative", relative_difference_numerical s t);
        (feature +:+ "_difference_normalized",
         normalized_difference_numerical s t (series_add ps ws) (series_add pt wt))].

(** The columns the method reads are there. *)
Definition has_columns (ds : ODict.t Series) : Prop :=
  Forall (fun feature =>
            is_Some (ODict.get (feature +:+ "_source") ds)
            ∧ is_Some (ODict.get (feature +:+ "_target") ds))
         init_feature_difference_list
  ∧ is_Some (ODict.get "Translation" ds).

End WithSeries.

(** Symbolic Series: a column of the dataset, or one of the four
    operations applied to Series. *)
Inductive term : Type :=
| Col (label : string)
| Difference (s t : term)
| Relative (s t : term)
| Normalized (s t length_source length_target : term)
| Plus (a b : term).

(** A dataset with every column the method reads. *)
Definition symbolic_dataset : ODict.t term :=
  map (fun label => (label, Col label))
      (flat_map (fun feature => [feature +:+ "_source"; feature +:+ "_target"])
                init_feature_difference_list
       ++ ["Translation"]).

End FeatureGenerationSpec.

Module LoadEmbeddingsSpec.
Import PreprocessData PrimFloat.
Local Open Scope float_scope.

(** An entry that is zero, of either sign. *)
Definition zero_entry (x : float) : Prop := x = 0 ∨ x = -0.

(** At least one row, and rows of one length. *)
Definition stackable {A : Type} (rows : list (list A)) : Prop :=
  rows ≠ [] ∧ ∃ d, Forall (fun row => length row = d) rows.

Definition rows_stackable (array : ndarray) : Prop :=
  match array with
  | of_float64 rows => stackable rows
  | of_int64 rows => stackable rows
  end.

Section NumPy.
Variable np_sum : list float → float.

(** The norm of a row as the doubles give it: the root of the sum of
    the squares of its entries. *)
Definition computed_norm (row : list float) : float :=
  sqrt (np_sum (map (fun x => x * x) row)).

(** The divisor of a row: its computed norm, or 1 when that equals 0. *)
Definition divisor (row : list float) : float :=
  if computed_norm row =? 0 then 1 else computed_norm row.

(** Zeros add up to zero. *)
Definition sums_zeros : Prop :=
  ∀ row, Forall (fun x => x = 0) row → np_sum row = 0.

End NumPy.

(** A reduction for the examples: the entries added from left to
    right. *)
Definition left_to_right (row : list float) : float := fold_left add row 0.

(** The double nearest to 1e200; its square is beyond the largest
    double. *)
Definition huge : float := 0x1.4e718d7d7625ap+664.

(** The double nearest to 1e-200; its square is below the smallest
    double. *)
Definition tiny : float := 0x1.87e92154ef7acp-665.

End LoadEmbeddingsSpec.

Module DataSetSpec.
Import Pandas DataSetClass.

(** [ps] is a draw of [n] distinct row positions of [df]. *)
Definition draw_of (ps : list nat) (n : Z) (df : DataFrame) : Prop :=
  Z.of_nat (length ps) = n ∧ NoDup ps ∧ Forall (fun p => p < nrows df) ps.

(** The frames of a [DataSet] are proper frames with distinct column
    labels, also across the source and the target frame. *)
Record proper (self : DataSet) : Prop := mkProper
  { proper_dataframe : well_formed (preprocessed_dataframe self);
    proper_source : well_formed (preprocessed_source self);
    proper_target : well_formed (preprocessed_target self);
    proper_labels : NoDup (names (preprocessed_dataframe self));
    proper_labels_wrong :
      NoDup (names (preprocessed_source self) ++ names (preprocessed_target self)) }.

(** The three draws of [get_sample n], from the generator state [g]. *)
Definition draws (n : Z) (self : DataSet) (g : rng)
  : list nat * list nat * list nat * rng :=
  let k := Z.to_nat n in
  let '(ps1, g1) := choice k (seq 0 (nrows (preprocessed_dataframe self))) g in
  let '(ps2, g2) := choice k (seq 0 (nrows (preprocessed_source self))) g1 in
  let '(ps3, g3) := choice k (seq 0 (nrows (preprocessed_target self))) g2 in
  (ps1, ps2, ps3, g3).

(** [n] is at least 0 and at most the number of rows of each frame. *)
Definition in_range (n : Z) (self : DataSet) : Prop :=
  (0 ≤ n)%Z
  ∧ (n ≤ Z.of_nat (nrows (preprocessed_dataframe self)))%Z
  ∧ (n ≤ Z.of_nat (nrows (preprocessed_source self)))%Z
  ∧ (n ≤ Z.of_nat (nrows (preprocessed_target self)))%Z.

(** Three sentence pairs, and the two languages apart. *)
Definition three_pairs : DataSet :=
  init ({| index := [10; 11; 12];
           columns := [("text_source", [Str "ja"; Str "nein"; Str "gut"]);
                       ("text_target", [Str "yes"; Str "no"; Str "good"]);
                       ("Translation", [Num 1; Num 1; Num 1])] |},
        {| index := [10; 11; 12];
           columns := [("text_source", [Str "ja"; Str "nein"; Str "gut"])] |},
        {| index := [10; 11; 12];
           columns := [("text_target", [Str "yes"; Str "no"; Str "good"])] |}).

End DataSetSpec.

Module WordEmbeddingsSpec.
Import PreprocessData.

Section Lookup.
Context {A : Type}.
Variable embedding_array : list (list A).
Variable embedding_dictionary : gmap string Z.

(** One turn of the loop of [token_list_embedding]. *)
Definition embedding_step (word_embedding_dictionary : ODict.t (list A))
           (token : string) : result (ODict.t (list A)) :=
  match embedding_dictionary !! token with
  | Some i =>
      if bool_of_int i then
        row ← ndarray_row embedding_array i;
        Ok (ODict.setitem word_embedding_dictionary token row)
      else Ok word_embedding_dictionary
  | None => Ok word_embedding_dictionary
  end.

(** The tokens the loop gives a column: those with a dictionary entry
    whose index is not 0. *)
Definition looked_up (token : string) : Prop :=
  ∃ i, embedding_dictionary !! token = Some i ∧ i ≠ 0%Z.

End Lookup.

(** A token list over a two-word vocabulary. *)
Definition two_words : gmap string Z := <["the" := 0%Z]> (<["cat" := 1%Z]> ∅).
Definition two_rows : list (list Z) := [[1; 2]; [3; 4]]%Z.

End WordEmbeddingsSpec.

Module TranslationSpec.
Import PreprocessData.
Local Open Scope Q_scope.

(** The head of a list of positions has the least value. *)
Definition head_least (key : nat → Q) (l : list nat) : Prop :=
  match l with
  | [] => True
  | h :: _ => Forall (fun j => key h <= key j) l
  end.

(** The embedding the loops use for a token: the row its dictionary
    index selects, when that index is not 0. *)
Definition embedding_of (embedding_array : list (list Q))
           (embedding_dictionary : gmap string Z) (token : string)
  : option (list Q) :=
  match embedding_dictionary !! token with
  | Some i =>
      if bool_of_int i then
        match ndarray_row embedding_array i with
        | Ok row => Some row
        | Raise _ => None
        end
      else None
  | None => None
  end.

(** The embeddings collected for a list of tokens, in order. *)
Definition kept_rows (embedding_array : list (list Q))
           (embedding_dictionary : gmap string Z) (tokens : list string)
  : ODict.t (list Q) :=
  omap (fun token => (fun row => (token, row))
                       <$> embedding_of embedding_array embedding_dictionary token)
       tokens.

(** Two German and two English words with unit embeddings; [katze]
    and [cat] have index 0. *)
Definition source_dictionary : gmap string Z :=
  <["katze" := 0%Z]> (<["haus" := 1%Z]> ∅).
Definition target_dictionary : gmap string Z :=
  <["cat" := 0%Z]> (<["house" := 1%Z]> ∅).
Definition source_array : list (list Q) := [[1; 0]; [4 # 5; 3 # 5]].
Definition target_array : list (list Q) := [[1; 0]; [0; 1]].

End TranslationSpec.


Module PreprocessTextSpec.
Import PreprocessData PreprocessText.

(** The characters of a string. *)
Definition chars (s : string) : list ascii := list_ascii_of_string s.

(** The marks [number_punctuations_total] counts: the punctuation
    marks other than the full stop, and the ellipsis. *)
Definition counted_marks : list string :=
  filter (fun mark => mark ≠ ".") (py_list string_punctuation) ++ ["..."].

(** A token of text does not start in the middle of a code point. *)
Definition well_encoded (word : string) : Prop :=
  match word with
  | EmptyString => True
  | String c _ => is_continuation c = false
  end.

(** The number of tokens of a sentence that satisfy [P]. *)
Definition count (P : string → Prop) `{∀ w, Decision (P w)}
           (sentence : list string) : nat :=
  length (filter P sentence).

End PreprocessTextSpec.

Module WordEmbeddingsMoreSpec.
Import PreprocessData.

(** [i] is an index NumPy accepts for [array], counting from the end
    when negative. *)
Definition in_bounds {A : Type} (array : list A) (i : Z) : Prop :=
  (- Z.of_nat (length array) ≤ i < Z.of_nat (length array))%Z.

(** The test [if embedding_dictionary.get(token):]. *)
Definition truthy_index (embedding_dictionary : gmap string Z) (token : string)
  : bool :=
  match embedding_dictionary !! token with
  | Some i => bool_of_int i
  | None => false
  end.

(** The distinct elements of a list, in the order of their first
    occurrence. *)
Definition first_occurrences (l : list string) : list string :=
  foldl (fun seen x => if decide (x ∈ seen) then seen else seen ++ [x]) [] l.

End WordEmbeddingsMoreSpec.

Module TranslationMoreSpec.
Import PreprocessData TranslationSpec WordEmbeddingsMoreSpec.
Local Open Scope Q_scope.

(** [translations] maps exactly the [tokens] whose index is not 0, each
    to one of the [others] whose index is not 0 and whose embedding has
    the largest dot product with the token's embedding. *)
Definition nearest_neighbour_map (translations : gmap string string)
           (tokens others : list string)
           (embedding_array : list (list Q)) (embedding_dictionary : gmap string Z)
           (embedding_array_other : list (list Q))
           (embedding_dictionary_other : gmap string Z) : Prop :=
  (∀ s, is_Some (translations !! s)
        ↔ s ∈ tokens ∧ truthy_index embedding_dictionary s = true)
  ∧ ∀ s t,
      translations !! s = Some t →
      t ∈ others
      ∧ truthy_index embedding_dictionary_other t = true
      ∧ ∃ v w,
          embedding_of embedding_array embedding_dictionary s = Some v
          ∧ embedding_of embedding_array_other embedding_dictionary_other t = Some w
          ∧ ∀ t' w',
              t' ∈ others →
              embedding_of embedding_array_other embedding_dictionary_other t'
              = Some w' →
              dot v w' <= dot v w.

(** Three German and three English words; [katze] and [cat] have
    index 0, and the other words of a language have different
    embeddings. *)
Definition german_dictionary : gmap string Z :=
  <["katze" := 0%Z]> (<["haus" := 1%Z]> (<["hund" := 2%Z]> ∅)).
Definition english_dictionary : gmap string Z :=
  <["cat" := 0%Z]> (<["house" := 1%Z]> (<["dog" := 2%Z]> ∅)).
Definition german_array : list (list Q) := [[1; 0]; [4 # 5; 3 # 5]; [0; 1]].
Definition english_array : list (list Q) := [[3 # 5; 4 # 5]; [1; 0]; [0; 1]].

End TranslationMoreSpec.

Module SentenceEmbeddingSpec.
Import PreprocessData TranslationSpec.
Local Open Scope Q_scope.

(** Component [j] of the embedding of a token, 0 for a token without
    one. *)
Definition component (embedding_array : list (list Q))
           (embedding_dictionary : gmap string Z) (j : nat) (token : string) : Q :=
  match embedding_of embedding_array embedding_dictionary token with
  | Some row => nth j row 0
  | None => 0
  end.

Definition sum (l : list Q) : Q := fold_right Qplus 0 l.

End SentenceEmbeddingSpec.

(** * Properties *)

(** ** The error monad *)

Lemma bind_Ok {A B : Type} (m : result A) (k : A → result B) (b : B) :
  m ≫= k = Ok b ↔ ∃ a, m = Ok a ∧ k a = Ok b.
Proof.
  destruct m as [a|e]; simpl; split.
  - intros H. exists a. auto.
  - intros (a' & Ha & H). congruence.
  - discriminate.
  - intros (a' & Ha & _). discriminate.
Qed.

Lemma for_each_cons {A S : Type} (body : S → A → result S) (s : S) (x : A) (l : list A) :
  for_each body s (x :: l) = body s x ≫= fun s' => for_each body s' l.
Proof. reflexivity. Qed.

Lemma for_each_app {A S : Type} (body : S → A → result S) (s : S) (l1 l2 : list A) :
  for_each body s (l1 ++ l2) = for_each body s l1 ≫= fun s' => for_each body s' l2.
Proof.
  revert s. induction l1 as [|x l1 IH]; intros s; simpl; [done|].
  destruct (body s x) as [s'|e]; simpl; [apply IH | done].
Qed.

(** ** Punctuation counts *)
Module PunctuationProofs.
Import PreprocessData PunctuationSpec.

Lemma list_remove_elem (x : string) (l l' : list string) :
  NoDup l → list_remove x l = Ok l' →
  ∀ w, w ∈ l' ↔ w ∈ l ∧ w ≠ x.
Proof.
  revert l'. induction l as [|y l IH]; intros l' Hnd H w; simpl in H; [done|].
  apply NoDup_cons in Hnd as [Hy Hnd].
  destruct (decide (y = x)) as [->|Hne].
  - injection H as <-. rewrite elem_of_cons. split.
    + intros Hw. split; [by right|]. intros ->. done.
    + intros [[->|Hw] Hne]; done.
  - apply bind_Ok in H as (r & Hr & H). injection H as <-.
    rewrite !elem_of_cons, (IH r Hnd Hr w). split.
    + intros [->|[Hw Hx]]; split; auto.
    + intros [[->|Hw] Hx]; auto.
Qed.

Lemma list_remove_present (x : string) (l : list string) :
  x ∈ l → ∃ l', list_remove x l = Ok l'.
Proof.
  induction l as [|y l IH]; intros Hx; [by apply elem_of_nil in Hx|].
  simpl. destruct (decide (y = x)) as [->|Hne]; [eauto|].
  apply elem_of_cons in Hx as [->|Hx]; [done|].
  destruct (IH Hx) as [l' ->]. simpl. eauto.
Qed.

Lemma punctuation_NoDup : NoDup (py_list string_punctuation).
Proof. by_compute. Qed.

Lemma full_stop_is_punctuation : "." ∈ py_list string_punctuation.
Proof. by_compute. Qed.

Lemma ellipsis_not_punctuation : "..." ∉ py_list string_punctuation.
Proof. by_compute. Qed.

Lemma counted_iff (list_pm : list string) (w : string) :
  list_remove "." (py_list string_punctuation) = Ok list_pm →
  w ∈ list_pm ++ ["..."] ↔ contribution w = 1.
Proof.
  intros H. rewrite elem_of_app, (list_remove_elem _ _ _ punctuation_NoDup H).
  rewrite list_elem_of_singleton. unfold contribution.
  repeat case_decide; subst; split; try done; try tauto.
  intros [[_ ?]|?]; done.
Qed.

Lemma sentence_count (list_pm : list string) (sentence : list string) :
  list_remove "." (py_list string_punctuation) = Ok list_pm →
  length (filter (fun word => word ∈ list_pm ++ ["..."]) sentence)
  = sum_list (map contribution sentence).
Proof.
  intros H. induction sentence as [|w s IH]; [done|].
  rewrite filter_cons. simpl.
  pose proof (counted_iff list_pm w H) as Hw.
  destruct (decide (w ∈ list_pm ++ ["..."])) as [Hin|Hnin].
  - simpl. rewrite IH. apply Hw in Hin. lia.
  - rewrite IH. assert (contribution w = 0); [|lia].
    assert (contribution w ≠ 1) by tauto.
    unfold contribution in *. repeat case_decide; done.
Qed.

(** C9. [number_punctuations_total] returns, for every tokenized
    sentence, the sum of the contributions of its tokens: a token
    equal to the full stop contributes 0, the ellipsis and every other
    mark of [string.punctuation] contribute 1 each (and no other token
    is counted). *)
Theorem number_punctuations_total_skips_full_stop :
  ∀ sentence_vector : list (list string),
    number_punctuations_total sentence_vector
    = Ok (map (fun sentence => sum_list (map contribution sentence))
              sentence_vector)
    ∧ contribution "." = 0
    ∧ contribution "..." = 1
    ∧ Forall (fun mark => mark = "." ∨ contribution mark = 1)
             (py_list string_punctuation).
Proof.
  intros sv. split; [|split; [done|split; [done|]]].
  - unfold number_punctuations_total.
    destruct (list_remove_present _ _ full_stop_is_punctuation) as [l Hl].
    rewrite Hl. simpl. f_equal. apply map_ext. intros s.
    by apply sentence_count.
  - apply Forall_forall. intros mark Hm.
    destruct (decide (mark = ".")) as [|Hne]; [by left|right].
    unfold contribution. repeat case_decide; done.
Qed.

End PunctuationProofs.

(** ** Characters per word *)
Module AverageCharactersProofs.
Import PreprocessData AverageCharactersSpec.

Lemma average_characters_scrub (character_vector word_vector : list Z) :
  average_characters character_vector word_vector
  = map scrub (series_div character_vector word_vector).
Proof.
  unfold average_characters, replace. rewrite !map_map.
  apply map_ext. intros [q| | |]; reflexivity.
Qed.

Lemma scrub_true_divide (c w : Z) :
  scrub (true_divide c w)
  = if (w =? 0)%Z then Fin 0 else Fin (inject_Z c / inject_Z w).
Proof.
  unfold true_divide. destruct (w =? 0)%Z; [|done].
  destruct (c =? 0)%Z; [done|]. by destruct (0 <? c)%Z.
Qed.

Lemma series_div_length (a b : list Z) :
  length (series_div a b) = length a `max` length b.
Proof.
  revert b. induction a as [|x a IH]; intros [|y b]; simpl;
    rewrite ?length_map; auto.
Qed.

(** C8. [average_characters] never returns NaN or an infinity, on any
    two vectors; and on two vectors with the same positions (the
    columns of a list of (characters, words) pairs) the value at each
    position is characters / words when the word count is not 0, and 0
    when it is 0 (where the quotient is NaN or infinite). *)
Theorem average_characters_total :
  ∀ (counts : list (Z * Z)) (character_vector word_vector : list Z),
    average_characters counts.*1 counts.*2
    = map (fun cw => if (cw.2 =? 0)%Z then Fin 0
                     else Fin (inject_Z cw.1 / inject_Z cw.2)) counts
    ∧ Forall is_finite (average_characters character_vector word_vector)
    ∧ length (average_characters character_vector word_vector)
      = length character_vector `max` length word_vector.
Proof.
  intros counts cv wv. rewrite !average_characters_scrub. split; [|split].
  - induction counts as [|[c w] l IH]; [done|].
    simpl. rewrite scrub_true_divide. f_equal. exact IH.
  - apply Forall_forall. intros x Hx.
    apply list_elem_of_fmap in Hx as (y & -> & _). by destruct y.
  - rewrite length_map. apply series_div_length.
Qed.

End AverageCharactersProofs.

(** ** Translating token lists *)
Module TranslateWordsProofs.
Import PreprocessData.

Lemma calculate_translations_from (translation_dictionary : gmap string string)
      (word_list acc : list string) :
  for_each
    (fun translation_list word =>
       try_except_KeyError
         (t ← dict_getitem translation_dictionary word;
          Ok (translation_list ++ [t]))
         (Ok translation_list))
    acc word_list
  = Ok (acc ++ omap (fun word => translation_dictionary !! word) word_list).
Proof.
  revert acc. induction word_list as [|w ws IH]; intros acc.
  - simpl. by rewrite app_nil_r.
  - rewrite for_each_cons. unfold dict_getitem. simpl omap.
    destruct (translation_dictionary !! w) as [t|]; cbn -[for_each].
    + rewrite IH. by rewrite <- app_assoc.
    + apply IH.
Qed.

Lemma calculate_translations_spec (word_list : list string)
      (translation_dictionary : gmap string string) :
  calculate_translations word_list translation_dictionary
  = Ok (omap (fun word => translation_dictionary !! word) word_list).
Proof. unfold calculate_translations. by rewrite calculate_translations_from. Qed.

Lemma mapM_Ok {A B : Type} (f : A → result B) (g : A → B) (l : list A) :
  (∀ x, f x = Ok (g x)) → mapM f l = Ok (map g l).
Proof.
  intros H. induction l as [|x l IH]; [done|].
  simpl. rewrite H. simpl. rewrite IH. done.
Qed.

Lemma translate_words_spec (token_vector : list (list string))
      (translation_dictionary : gmap string string) :
  translate_words token_vector translation_dictionary
  = Ok (map (omap (fun word => translation_dictionary !! word)) token_vector).
Proof.
  unfold translate_words. apply mapM_Ok. intros l.
  apply calculate_translations_spec.
Qed.

End TranslateWordsProofs.

(** ** Insertion-ordered dictionaries *)
Module ODictProofs.
Section ODictProofs.
Context {V : Type}.
Implicit Types (d : ODict.t V) (k : string) (v : V).

Lemma setitem_fresh d k v :
  k ∉ ODict.keys d → ODict.setitem d k v = d ++ [(k, v)].
Proof.
  induction d as [|[k' v'] d IH]; intros Hk; [done|].
  unfold ODict.keys in Hk. simpl in *. apply not_elem_of_cons in Hk as [Hne Hk].
  destruct (decide (k' = k)); [congruence|]. by rewrite IH.
Qed.

Lemma assign_all_fresh d kvs :
  NoDup (ODict.keys d ++ kvs.*1) → ODict.assign_all d kvs = d ++ kvs.
Proof.
  revert d. induction kvs as [|[k v] kvs IH]; intros d Hnd; simpl.
  - by rewrite app_nil_r.
  - unfold ODict.assign_all in *. simpl.
    assert (k ∉ ODict.keys d) as Hk.
    { apply NoDup_app in Hnd as (_ & Hd & _). intros Hin.
      apply (Hd _ Hin). simpl. left. }
    rewrite (setitem_fresh _ _ _ Hk), IH.
    + by rewrite <- app_assoc.
    + unfold ODict.keys in *. rewrite fmap_app. simpl.
      rewrite <- app_assoc. exact Hnd.
Qed.

Lemma get_elem d k v :
  NoDup (ODict.keys d) → (k, v) ∈ d → ODict.get k d = Some v.
Proof.
  induction d as [|[k' v'] d IH]; intros Hnd Hin; [by apply elem_of_nil in Hin|].
  unfold ODict.keys in *. simpl in *.
  apply NoDup_cons in Hnd as [Hk' Hnd].
  apply elem_of_cons in Hin as [Heq|Hin].
  - injection Heq as -> ->. by rewrite decide_True.
  - destruct (decide (k' = k)) as [->|Hne]; [|by apply IH].
    exfalso. apply Hk'. apply list_elem_of_fmap. by exists (k, v).
Qed.

Lemma get_None d k : ODict.get k d = None ↔ k ∉ ODict.keys d.
Proof.
  induction d as [|[k' v'] d IH]; unfold ODict.keys in *; simpl.
  - split; [intros _; apply not_elem_of_nil | done].
  - rewrite not_elem_of_cons. destruct (decide (k' = k)) as [->|Hne].
    + split; [done | intros [? _]; done].
    + rewrite IH. split; [by split | by intros [_ ?]].
Qed.

Lemma get_setitem_eq d k v : ODict.get k (ODict.setitem d k v) = Some v.
Proof.
  induction d as [|[k' v'] d IH]; simpl.
  - by rewrite decide_True.
  - destruct (decide (k' = k)) as [->|Hne]; simpl.
    + by rewrite decide_True.
    + by rewrite decide_False.
Qed.

Lemma get_setitem_ne d k k' v :
  k ≠ k' → ODict.get k' (ODict.setitem d k v) = ODict.get k' d.
Proof.
  intros Hne. induction d as [|[k0 v0] d IH]; simpl.
  - by rewrite decide_False.
  - destruct (decide (k0 = k)) as [->|Hne0]; simpl.
    + by rewrite !decide_False.
    + destruct (decide (k0 = k')); [done | exact IH].
Qed.

Lemma elem_of_keys_setitem d k k' v :
  k' ∈ ODict.keys (ODict.setitem d k v) ↔ k' ∈ ODict.keys d ∨ k' = k.
Proof.
  unfold ODict.keys. induction d as [|[k0 v0] d IH]; simpl.
  - rewrite list_elem_of_singleton, elem_of_nil. tauto.
  - destruct (decide (k0 = k)) as [->|Hne]; simpl.
    + rewrite !elem_of_cons. tauto.
    + rewrite !elem_of_cons, IH. tauto.
Qed.

End ODictProofs.
End ODictProofs.

(** ** Feature generation *)
Module FeatureGenerationProofs.
Import FeatureGenerationClass FeatureGenerationSpec ODictProofs.

Section WithSeries.
Context {Series : Type}.
Variable difference_numerical : Series → Series → Series.
Variable relative_difference_numerical : Series → Series → Series.
Variable normalized_difference_numerical :
  Series → Series → Series → Series → Series.
Variable series_add : Series → Series → Series.

Abbreviation feature_step :=
  (feature_step difference_numerical relative_difference_numerical
                normalized_difference_numerical series_add).
Abbreviation feature_generation :=
  (feature_generation difference_numerical relative_difference_numerical
                      normalized_difference_numerical series_add).
Abbreviation derived_columns :=
  (derived_columns difference_numerical relative_difference_numerical
                   normalized_difference_numerical series_add).

Lemma feature_step_columns (ds fd : ODict.t Series) (feature : string) :
  feature_step ds fd feature
  = match derived_columns ds feature with
    | Some kvs => Ok (ODict.assign_all fd kvs)
    | None => Raise KeyError
    end.
Proof.
  unfold FeatureGenerationClass.feature_step, FeatureGenerationSpec.derived_columns,
    ODict.getitem.
  destruct (ODict.get (feature +:+ "_source") ds) as [s|]; [|done].
  destruct (ODict.get (feature +:+ "_target") ds) as [t|]; [|done].
  destruct (ODict.get "number_punctuations_total_source" ds) as [ps|]; [|done].
  destruct (ODict.get "number_words_source" ds) as [ws|]; [|done].
  destruct (ODict.get "number_punctuations_total_target" ds) as [pt|]; [|done].
  destruct (ODict.get "number_words_target" ds) as [wt|]; done.
Qed.

Lemma derived_columns_labels (ds : ODict.t Series) (feature : string) kvs :
  derived_columns ds feature = Some kvs → kvs.*1 = derived_labels feature.
Proof.
  unfold FeatureGenerationSpec.derived_columns. intros H.
  repeat (apply bind_Some in H as (? & _ & H)). by injection H as <-.
Qed.

Lemma assign_all_app (fd : ODict.t Series) (kvs kvs' : list (string * Series)) :
  ODict.assign_all fd (kvs ++ kvs') = ODict.assign_all (ODict.assign_all fd kvs) kvs'.
Proof. apply fold_left_app. Qed.

Lemma loop_columns (ds : ODict.t Series) (features : list string) (fd : ODict.t Series) :
  for_each (feature_step ds) fd features
  = match mapM (derived_columns ds) features with
    | Some kvss => Ok (ODict.assign_all fd (concat kvss))
    | None => Raise KeyError
    end.
Proof.
  revert fd. induction features as [|f fs IH]; intros fd; [done|].
  rewrite for_each_cons, feature_step_columns. simpl.
  destruct (derived_columns ds f) as [kvs|]; simpl; [|done].
  rewrite IH. destruct (mapM (derived_columns ds) fs) as [kvss|]; simpl; [|done].
  by rewrite assign_all_app.
Qed.

Lemma mapM_derived_labels (ds : ODict.t Series) (features : list string) kvss :
  mapM (derived_columns ds) features = Some kvss →
  (concat kvss).*1 = flat_map derived_labels features.
Proof.
  rewrite mapM_Some. induction 1 as [|f kvs fs kvss Hf _ IH]; [done|].
  cbn [concat flat_map]. rewrite fmap_app, IH.
  by rewrite (derived_columns_labels _ _ _ Hf).
Qed.

Lemma mapM_derived_elem (ds : ODict.t Series) (features : list string) kvss f :
  mapM (derived_columns ds) features = Some kvss → f ∈ features →
  ∃ kvs, derived_columns ds f = Some kvs ∧ ∀ kv, kv ∈ kvs → kv ∈ concat kvss.
Proof.
  rewrite mapM_Some. induction 1 as [|f' kvs fs kvss Hf _ IH]; intros Hin.
  - by apply elem_of_nil in Hin.
  - apply elem_of_cons in Hin as [->|Hin].
    + exists kvs. split; [done|]. intros kv Hkv. simpl. apply elem_of_app. by left.
    + destruct (IH Hin) as (kvs' & Hd & Hsub). exists kvs'. split; [done|].
      intros kv Hkv. simpl. apply elem_of_app. right. by apply Hsub.
Qed.

Lemma labels_NoDup :
  NoDup (flat_map derived_labels init_feature_difference_list ++ ["Translation"]).
Proof. by_compute. Qed.

(** What a completed call has done. *)
Lemma feature_generation_inv (ds : ODict.t Series) (self' : FeatureGeneration) :
  feature_generation (init ds) = Ok self' →
  ∃ kvss tr,
    mapM (derived_columns ds) init_feature_difference_list = Some kvss
    ∧ ODict.get "Translation" ds = Some tr
    ∧ feature_dataframe self' = concat kvss ++ [("Translation", tr)]
    ∧ preprocessed_dataset self' = ds.
Proof.
  unfold FeatureGenerationClass.feature_generation, init.
  cbn [preprocessed_dataset feature_dataframe feature_difference_list].
  intros H. apply bind_Ok in H as (fd & Hfd & H).
  apply bind_Ok in H as (tr & Htr & H). injection H as <-.
  cbn [preprocessed_dataset feature_dataframe].
  rewrite loop_columns in Hfd.
  destruct (mapM (derived_columns ds) init_feature_difference_list)
    as [kvss|] eqn:Hm; [|done].
  injection Hfd as <-. unfold ODict.getitem in Htr.
  destruct (ODict.get "Translation" ds) as [tr'|] eqn:Hg; [|done].
  injection Htr as ->. exists kvss, tr. repeat split; try done.
  pose proof labels_NoDup as Hnd.
  rewrite <- (mapM_derived_labels _ _ _ Hm) in Hnd.
  change (ODict.setitem ?d ?k ?v) with (ODict.assign_all d [(k, v)]).
  rewrite <- assign_all_app. apply (assign_all_fresh []). simpl.
  by rewrite fmap_app.
Qed.

Lemma feature_generation_total (ds : ODict.t Series) :
  has_columns ds → ∃ self', feature_generation (init ds) = Ok self'.
Proof.
  intros [Hall [tr Htr]].
  assert (is_Some (mapM (derived_columns ds) init_feature_difference_list)) as [kvss Hm].
  { assert (∀ f, f ∈ init_feature_difference_list →
                 is_Some (ODict.get (f +:+ "_source") ds)
                 ∧ is_Some (ODict.get (f +:+ "_target") ds)) as Hf
        by (by apply Forall_forall).
    destruct (Hf "number_punctuations_total") as [[ps Hps] [pt Hpt]]; [by_compute|].
    destruct (Hf "number_words") as [[ws Hws] [wt Hwt]]; [by_compute|].
    change (ODict.get "number_punctuations_total_source" ds = Some ps) in Hps.
    change (ODict.get "number_punctuations_total_target" ds = Some pt) in Hpt.
    change (ODict.get "number_words_source" ds = Some ws) in Hws.
    change (ODict.get "number_words_target" ds = Some wt) in Hwt.
    apply mapM_is_Some, Forall_forall. intros f Hin.
    destruct (Hf f Hin) as [[s Hs] [t Ht]].
    unfold compose, FeatureGenerationSpec.derived_columns.
    rewrite Hs, Ht, Hps, Hpt, Hws, Hwt. by eexists. }
  unfold FeatureGenerationClass.feature_generation, init.
  cbn [preprocessed_dataset feature_dataframe feature_difference_list].
  rewrite loop_columns, Hm. cbn [mbind result_bind].
  unfold ODict.getitem. rewrite Htr. by eexists.
Qed.

(** The columns written for one stem, after a completed call. *)
Lemma feature_generation_stem (ds : ODict.t Series) (self' : FeatureGeneration)
      (feature : string) :
  feature_generation (init ds) = Ok self' →
  feature ∈ init_feature_difference_list →
  ∃ s t ps ws pt wt,
    ODict.get (feature +:+ "_source") ds = Some s
    ∧ ODict.get (feature +:+ "_target") ds = Some t
    ∧ ODict.get "number_punctuations_total_source" ds = Some ps
    ∧ ODict.get "number_words_source" ds = Some ws
    ∧ ODict.get "number_punctuations_total_target" ds = Some pt
    ∧ ODict.get "number_words_target" ds = Some wt
    ∧ ODict.get (feature +:+ "_difference") (feature_dataframe self')
      = Some (difference_numerical s t)
    ∧ ODict.get (feature +:+ "_difference_relative") (feature_dataframe self')
      = Some (relative_difference_numerical s t)
    ∧ ODict.get (feature +:+ "_difference_normalized") (feature_dataframe self')
      = Some (normalized_difference_numerical
                s t (series_add ps ws) (series_add pt wt)).
Proof.
  intros Hrun Hin.
  destruct (feature_generation_inv _ _ Hrun) as (kvss & tr & Hm & _ & Hfd & _).
  destruct (mapM_derived_elem _ _ _ _ Hm Hin) as (kvs & Hd & Hsub).
  assert (NoDup (ODict.keys (feature_dataframe self'))) as Hnd.
  { rewrite Hfd. unfold ODict.keys. rewrite fmap_app.
    rewrite (mapM_derived_labels _ _ _ Hm). exact labels_NoDup. }
  assert (∀ kv, kv ∈ kvs → ODict.get kv.1 (feature_dataframe self') = Some kv.2)
    as Hget.
  { intros [k v] Hkv. apply get_elem; [done|]. rewrite Hfd.
    apply elem_of_app. left. by apply Hsub. }
  unfold FeatureGenerationSpec.derived_columns in Hd.
  apply bind_Some in Hd as (s & Hs & Hd). apply bind_Some in Hd as (t & Ht & Hd).
  apply bind_Some in Hd as (ps & Hps & Hd). apply bind_Some in Hd as (ws & Hws & Hd).
  apply bind_Some in Hd as (pt & Hpt & Hd). apply bind_Some in Hd as (wt & Hwt & Hd).
  injection Hd as <-. exists s, t, ps, ws, pt, wt.
  repeat (split; [done|]). split; [|split].
  - apply (Hget (_, _)). rewrite !elem_of_cons. tauto.
  - apply (Hget (_, _)). rewrite !elem_of_cons. tauto.
  - apply (Hget (_, _)). rewrite !elem_of_cons. tauto.
Qed.

(** C2 (amended). The list of stems has 60 entries. When the dataset has
    the columns [F_source] and [F_target] of every stem [F] and the
    column [Translation], [feature_generation] completes; the feature
    frame then has exactly the columns [F_difference],
    [F_difference_relative], [F_difference_normalized] for the stems [F]
    in order, followed by [Translation]; the three columns of [F] are the
    three comparison functions applied to [F_source] and [F_target]; and
    [Translation] is the dataset's column. *)
Theorem feature_generation_columns (ds : ODict.t Series) :
  has_columns ds →
  ∃ self',
    feature_generation (init ds) = Ok self'
    ∧ length (feature_difference_list self') = 60
    ∧ ODict.keys (feature_dataframe self')
      = flat_map derived_labels (feature_difference_list self') ++ ["Translation"]
    ∧ Forall
        (fun feature =>
           ∃ s t,
             ODict.get (feature +:+ "_source") ds = Some s
             ∧ ODict.get (feature +:+ "_target") ds = Some t
             ∧ ODict.get (feature +:+ "_difference") (feature_dataframe self')
               = Some (difference_numerical s t)
             ∧ ODict.get (feature +:+ "_difference_relative")
                         (feature_dataframe self')
               = Some (relative_difference_numerical s t)
             ∧ ∃ length_source length_target,
                 ODict.get (feature +:+ "_difference_normalized")
                           (feature_dataframe self')
                 = Some (normalized_difference_numerical
                           s t length_source length_target))
        (feature_difference_list self')
    ∧ ODict.get "Translation" (feature_dataframe self')
      = ODict.get "Translation" ds.
Proof.
  intros Hcols. destruct (feature_generation_total ds Hcols) as [self' Hrun].
  exists self'. split; [done|].
  assert (feature_difference_list self' = init_feature_difference_list) as Hl.
  { unfold FeatureGenerationClass.feature_generation in Hrun.
    apply bind_Ok in Hrun as (? & _ & Hrun).
    apply bind_Ok in Hrun as (? & _ & Hrun). by injection Hrun as <-. }
  rewrite Hl.
  destruct (feature_generation_inv _ _ Hrun) as (kvss & tr & Hm & Htr & Hfd & _).
  split; [done|]. split; [|split].
  - rewrite Hfd. unfold ODict.keys. rewrite fmap_app.
    by rewrite (mapM_derived_labels _ _ _ Hm).
  - apply Forall_forall. intros feature Hin.
    destruct (feature_generation_stem _ _ _ Hrun Hin)
      as (s & t & ps & ws & pt & wt & Hs & Ht & _ & _ & _ & _ & H1 & H2 & H3).
    exists s, t. repeat (split; [done|]). eauto.
  - rewrite Htr. apply get_elem.
    + rewrite Hfd. unfold ODict.keys. rewrite fmap_app.
      rewrite (mapM_derived_labels _ _ _ Hm). exact labels_NoDup.
    + rewrite Hfd. apply elem_of_app. right. by apply list_elem_of_singleton.
Qed.

(** C7. After [feature_generation], for every stem [F] of the list the
    column [F_difference_normalized] is
    [normalized_difference_numerical] applied to [F_source], [F_target]
    and the two lengths
    [number_punctuations_total_source + number_words_source] and
    [number_punctuations_total_target + number_words_target]. *)
Theorem normalized_difference_uses_sentence_length
        (ds : ODict.t Series) (self' : FeatureGeneration) (feature : string) :
  feature_generation (init ds) = Ok self' →
  feature ∈ feature_difference_list (init ds) →
  ∃ s t ps ws pt wt,
    ODict.get (feature +:+ "_source") ds = Some s
    ∧ ODict.get (feature +:+ "_target") ds = Some t
    ∧ ODict.get "number_punctuations_total_source" ds = Some ps
    ∧ ODict.get "number_words_source" ds = Some ws
    ∧ ODict.get "number_punctuations_total_target" ds = Some pt
    ∧ ODict.get "number_words_target" ds = Some wt
    ∧ ODict.get (feature +:+ "_difference_normalized") (feature_dataframe self')
      = Some (normalized_difference_numerical
                s t (series_add ps ws) (series_add pt wt)).
Proof.
  intros Hrun Hin.
  destruct (feature_generation_stem _ _ _ Hrun Hin)
    as (s & t & ps & ws & pt & wt & Hs & Ht & Hps & Hws & Hpt & Hwt & _ & _ & H3).
  exists s, t, ps, ws, pt, wt. repeat (split; [done|]). done.
Qed.

Lemma feature_generation_has_columns (ds : ODict.t Series)
      (self' : FeatureGeneration) :
  feature_generation (init ds) = Ok self' → has_columns ds.
Proof.
  intros Hrun. split.
  - apply Forall_forall. intros feature Hin.
    destruct (feature_generation_stem _ _ _ Hrun Hin)
      as (s & t & _ & _ & _ & _ & Hs & Ht & _).
    split; by eexists.
  - destruct (feature_generation_inv _ _ Hrun) as (_ & tr & _ & Htr & _).
    by eexists.
Qed.

Lemma feature_generation_Raise (ds : ODict.t Series) (e : exn) :
  feature_generation (init ds) = Raise e → e = KeyError.
Proof.
  unfold FeatureGenerationClass.feature_generation, init.
  cbn [preprocessed_dataset feature_dataframe feature_difference_list].
  rewrite loop_columns.
  destruct (mapM (derived_columns ds) init_feature_difference_list);
    cbn [mbind result_bind]; [|congruence].
  unfold ODict.getitem. destruct (ODict.get "Translation" ds);
    cbn [mbind result_bind]; congruence.
Qed.

Lemma feature_generation_missing_column (ds : ODict.t Series) :
  ¬ has_columns ds → feature_generation (init ds) = Raise KeyError.
Proof.
  intros Hmiss. destruct (feature_generation (init ds)) as [self'|e] eqn:Hrun.
  - by apply feature_generation_has_columns in Hrun.
  - by apply feature_generation_Raise in Hrun as ->.
Qed.

End WithSeries.

Lemma feature_generation_columns_witness :
  has_columns symbolic_dataset
  ∧ ∃ self',
      FeatureGenerationClass.feature_generation
        Difference Relative Normalized Plus (init symbolic_dataset) = Ok self'
      ∧ length (feature_difference_list self') = 60
      ∧ ODict.get "Translation" (feature_dataframe self') = Some (Col "Translation").
Proof.
  assert (has_columns symbolic_dataset) as H by by_compute.
  split; [exact H|].
  destruct (feature_generation_columns
              Difference Relative Normalized Plus symbolic_dataset H)
    as (self' & Hrun & Hlen & _ & _ & Htr).
  exists self'. split; [exact Hrun | split; [exact Hlen | exact Htr]].
Defined.

Lemma normalized_difference_uses_sentence_length_witness :
  ODict.get "number_words_difference_normalized"
            (match FeatureGenerationClass.feature_generation
                     Difference Relative Normalized Plus
                     (init symbolic_dataset) with
             | Ok self' => feature_dataframe self'
             | Raise _ => []
             end)
  = Some (Normalized
            (Col "number_words_source") (Col "number_words_target")
            (Plus (Col "number_punctuations_total_source")
                  (Col "number_words_source"))
            (Plus (Col "number_punctuations_total_target")
                  (Col "number_words_target"))).
Proof.
  destruct (FeatureGenerationClass.feature_generation
              Difference Relative Normalized Plus
              (init symbolic_dataset)) as [self'|e] eqn:Hrun;
    [|vm_compute in Hrun; discriminate Hrun].
  destruct (normalized_difference_uses_sentence_length
              Difference Relative Normalized Plus
              symbolic_dataset self' "number_words" Hrun ltac:(by_compute))
    as (s & t & ps & ws & pt & wt & Hs & Ht & Hps & Hws & Hpt & Hwt & H).
  vm_compute in Hs, Ht, Hps, Hws, Hpt, Hwt.
  injection Hs as <-. injection Ht as <-. injection Hps as <-.
  injection Hws as <-. injection Hpt as <-. injection Hwt as <-.
  exact H.
Defined.

(** The claim speaks of 59 stems. *)
Lemma feature_difference_list_not_59 :
  length (feature_difference_list (init symbolic_dataset)) ≠ 59.
Proof. by_compute. Qed.

End FeatureGenerationProofs.
(** ** Loading and normalising the embeddings *)
Module LoadEmbeddingsProofs.
Import PreprocessData LoadEmbeddingsSpec PrimFloat.

Local Open Scope float_scope.

Lemma vstack_Ok_inv {A : Type} (rows rows' : list (list A)) :
  vstack rows = Ok rows' → rows' = rows ∧ stackable rows.
Proof.
  destruct rows as [|r rs]; simpl; [done|].
  destruct (forallb _ rs) eqn:Hall; [|done].
  intros [= <-]. split; [done|]. split; [done|]. exists (length r).
  apply Forall_cons. split; [done|]. apply Forall_forall. intros r' Hin.
  rewrite forallb_forall in Hall. apply Nat.eqb_eq, Hall. by apply list_elem_of_In.
Qed.

Lemma vstack_Raise {A : Type} (rows : list (list A)) (e : exn) :
  vstack rows = Raise e → e = ValueError ∧ ¬ stackable rows.
Proof.
  destruct rows as [|r rs]; simpl.
  - intros [= <-]. split; [done|]. by intros [? _].
  - destruct (forallb _ rs) eqn:Hall; [done|]. intros [= <-]. split; [done|].
    intros [_ [d Hd]]. apply Forall_cons in Hd as [Hr Hrs].
    apply not_true_iff_false in Hall. apply Hall, forallb_forall.
    intros r' Hin. apply Nat.eqb_eq. rewrite Hr.
    rewrite Forall_forall in Hrs. apply Hrs. by apply list_elem_of_In.
Qed.

Lemma left_to_right_zeros : sums_zeros left_to_right.
Proof.
  intros row Hrow. unfold left_to_right.
  induction Hrow as [|x row -> _ IH]; [done|]. exact IH.
Qed.

Section NumPy.
Variable np_sum : list float → float.

Abbreviation normalize_array := (normalize_array np_sum).
Abbreviation load_embeddings := (load_embeddings np_sum).
Abbreviation divisor := (divisor np_sum).

Lemma normalize_array_rows (rows : list (list float)) :
  normalize_array (of_float64 rows)
  = Ok (of_float64 (map (fun row => map (fun x => x / divisor row) row) rows)).
Proof.
  unfold PreprocessData.normalize_array. do 2 f_equal. rewrite map_map.
  induction rows as [|row rows IH]; [done|].
  cbn [map zip_with]. by rewrite IH.
Qed.

(** The divisor is never zero. *)
Lemma divisor_nonzero (row : list float) : (divisor row =? 0) = false.
Proof.
  unfold LoadEmbeddingsSpec.divisor.
  destruct (computed_norm np_sum row =? 0) eqn:Hnorm; [reflexivity | exact Hnorm].
Qed.

Lemma zero_row_divisor (row : list float) :
  sums_zeros np_sum → Forall zero_entry row → divisor row = 1.
Proof.
  intros Hsum Hrow. unfold LoadEmbeddingsSpec.divisor, computed_norm.
  rewrite Hsum; [reflexivity|].
  apply Forall_fmap. eapply Forall_impl; [exact Hrow|].
  intros x [-> | ->]; reflexivity.
Qed.

Lemma zero_row_unchanged (row : list float) :
  sums_zeros np_sum → Forall zero_entry row →
  map (fun x => x / divisor row) row = row.
Proof.
  intros Hsum Hrow. rewrite (zero_row_divisor row Hsum Hrow).
  induction Hrow as [|x row Hx _ IH]; [done|].
  cbn [map]. rewrite IH. by destruct Hx as [-> | ->].
Qed.


End NumPy.



End LoadEmbeddingsProofs.

(** ** Frames *)
Module PandasProofs.
Import Pandas DataSetSpec.

Lemma get_app {V : Type} (d1 d2 : ODict.t V) (k : string) :
  ODict.get k (d1 ++ d2)
  = match ODict.get k d1 with
    | Some v => Some v
    | None => ODict.get k d2
    end.
Proof.
  induction d1 as [|[k' v'] d1 IH]; simpl; [done|].
  by destruct (decide (k' = k)).
Qed.

Lemma get_map_values {V W : Type} (f : V → W) (d : ODict.t V) (k : string) :
  ODict.get k (map (fun c => (c.1, f c.2)) d) = f <$> ODict.get k d.
Proof.
  induction d as [|[k' v'] d IH]; simpl; [done|].
  by destruct (decide (k' = k)).
Qed.

Lemma get_Some_key {V : Type} (d : ODict.t V) (k : string) (v : V) :
  ODict.get k d = Some v → k ∈ d.*1 ∧ (k, v) ∈ d.
Proof.
  induction d as [|[k' v'] d IH]; simpl; [done|].
  destruct (decide (k' = k)) as [->|Hne].
  - intros [= ->]. split; apply elem_of_cons; by left.
  - intros H. destruct (IH H). split; apply elem_of_cons; by right.
Qed.

Lemma get_is_Some {V : Type} (d : ODict.t V) (k : string) :
  k ∈ d.*1 → is_Some (ODict.get k d).
Proof.
  intros Hk. destruct (ODict.get k d) eqn:H; [by eexists|].
  by apply ODictProofs.get_None in H.
Qed.

(** *** Sampling *)

Lemma randint_bound (bound : nat) (g : rng) :
  0 < bound → (randint bound g).1 < bound.
Proof.
  intros Hb. destruct g as [|r g]; simpl; [done|].
  apply Nat.mod_upper_bound. lia.
Qed.

Lemma choice_spec (k : nat) (pool : list nat) (g : rng) :
  (k ≤ length pool)%nat → NoDup pool →
  length (choice k pool g).1 = k
  ∧ NoDup (choice k pool g).1
  ∧ ∀ p, p ∈ (choice k pool g).1 → p ∈ pool.
Proof.
  revert pool g. induction k as [|k IH]; intros pool g Hk Hnd.
  - simpl. split; [done|]. split; [constructor|].
    intros p Hp. by apply elem_of_nil in Hp.
  - cbn [choice]. pose proof (randint_bound (length pool) g ltac:(lia)) as Hi.
    destruct (randint (length pool) g) as [i g1]. simpl in Hi.
    destruct (lookup_lt_is_Some_2 _ _ Hi) as [x Hx].
    rewrite (nth_lookup_Some _ _ _ _ Hx).
    assert (x ∉ delete i pool) as Hfresh.
    { rewrite delete_take_drop. rewrite <- (take_drop_middle _ _ _ Hx) in Hnd.
      apply NoDup_app in Hnd as (_ & Hl & Hr). apply NoDup_cons in Hr as [Hr _].
      intros Hin. apply elem_of_app in Hin as [Hin|Hin]; [|done].
      apply (Hl _ Hin). apply elem_of_cons. by left. }
    destruct (IH (delete i pool) g1) as (Hlen & Hnd' & Hsub).
    { rewrite length_delete by eauto. lia. }
    { eapply sublist_NoDup; [done | apply sublist_delete]. }
    destruct (choice k (delete i pool) g1) as [ps g2]. simpl in *.
    split; [lia|]. split.
    + apply NoDup_cons. split; [|done]. intros Hin. by apply Hsub in Hin.
    + intros p Hp. apply elem_of_cons in Hp as [->|Hp].
      * apply list_elem_of_lookup. eauto.
      * eapply list_elem_of_delete_inv. by apply Hsub.
Qed.

(** Every sequence of distinct positions of the pool is the draw of
    some tape: the model does not restrict what [sample] may return. *)
Lemma choice_complete (ps pool : list nat) :
  NoDup ps → (∀ p, p ∈ ps → p ∈ pool) →
  ∃ g, (choice (length ps) pool g).1 = ps.
Proof.
  revert pool. induction ps as [|p ps IH]; intros pool Hnd Hsub.
  - by exists [].
  - apply NoDup_cons in Hnd as [Hp Hnd].
    destruct (proj1 (list_elem_of_lookup pool p)) as [i Hi].
    { apply Hsub, elem_of_cons. by left. }
    destruct (IH (delete i pool) Hnd) as [g Hg].
    { intros x Hx. assert (x ∈ pool) as Hin by (apply Hsub, elem_of_cons; by right).
      rewrite delete_take_drop. rewrite <- (take_drop_middle _ _ _ Hi) in Hin.
      rewrite elem_of_app, elem_of_cons in Hin. apply elem_of_app.
      destruct Hin as [?|[->|?]]; [by left | done | by right]. }
    exists (i :: g). cbn [choice randint length].
    assert (i < length pool)%nat as Hlt by (apply lookup_lt_is_Some; eauto).
    rewrite (Nat.mod_small _ _ Hlt).
    destruct (choice (length ps) (delete i pool) g) as [ps' g']. simpl in *.
    by rewrite (nth_lookup_Some _ _ _ _ Hi), Hg.
Qed.

Lemma sample_Ok (n : Z) (df : DataFrame) (g : rng) :
  (0 ≤ n ≤ Z.of_nat (nrows df))%Z →
  sample n df g
  = Ok (take_rows (choice (Z.to_nat n) (seq 0 (nrows df)) g).1 df,
        (choice (Z.to_nat n) (seq 0 (nrows df)) g).2)
    ∧ draw_of (choice (Z.to_nat n) (seq 0 (nrows df)) g).1 n df.
Proof.
  intros Hn. unfold sample.
  destruct (Z.ltb_spec n 0); [lia|].
  destruct (Z.ltb_spec (Z.of_nat (nrows df)) n); [lia|].
  destruct (choice_spec (Z.to_nat n) (seq 0 (nrows df)) g) as (Hlen & Hnd & Hsub).
  { rewrite length_seq. lia. }
  { apply NoDup_seq. }
  destruct (choice (Z.to_nat n) (seq 0 (nrows df)) g) as [ps g']. simpl in *.
  split; [done|]. split; [lia|]. split; [done|].
  apply Forall_forall. intros p Hp. apply Hsub, elem_of_seq in Hp. lia.
Qed.

Lemma sample_Ok_inv (n : Z) (df df' : DataFrame) (g g' : rng) :
  sample n df g = Ok (df', g') → (0 ≤ n ≤ Z.of_nat (nrows df))%Z.
Proof.
  unfold sample. destruct (Z.ltb_spec n 0); [done|].
  destruct (Z.ltb_spec (Z.of_nat (nrows df)) n); [done|]. lia.
Qed.

Lemma sample_cases (n : Z) (df : DataFrame) (g : rng) :
  (sample n df g = Raise ValueError ∧ ¬ (0 ≤ n ≤ Z.of_nat (nrows df))%Z)
  ∨ (∃ r, sample n df g = Ok r ∧ (0 ≤ n ≤ Z.of_nat (nrows df))%Z).
Proof.
  unfold sample. destruct (Z.ltb_spec n 0); [left; split; [done|lia]|].
  destruct (Z.ltb_spec (Z.of_nat (nrows df)) n); [left; split; [done|lia]|].
  right. destruct (choice _ _ _). eexists. split; [done|lia].
Qed.

(** *** Rows and columns *)

Lemma length_select {A : Type} (d : A) (ps : list nat) (l : list A) :
  length (select d ps l) = length ps.
Proof. apply length_map. Qed.

Lemma nrows_take_rows (ps : list nat) (df : DataFrame) :
  nrows (take_rows ps df) = length ps.
Proof. apply length_select. Qed.

Lemma well_formed_take_rows (ps : list nat) (df : DataFrame) :
  well_formed (take_rows ps df).
Proof.
  unfold well_formed. rewrite nrows_take_rows. simpl.
  apply Forall_forall. intros c Hc.
  apply list_elem_of_fmap in Hc as (c' & -> & _). apply length_select.
Qed.

Lemma columns_take_rows_length (ps : list nat) (df : DataFrame) :
  Forall (fun c => length c.2 = length ps) (columns (take_rows ps df)).
Proof.
  pose proof (well_formed_take_rows ps df) as H. unfold well_formed in H.
  by rewrite nrows_take_rows in H.
Qed.

Lemma column_take_rows (c : string) (ps : list nat) (df : DataFrame) :
  column c (take_rows ps df) = select NaN ps <$> column c df.
Proof. apply get_map_values. Qed.

Lemma names_take_rows (ps : list nat) (df : DataFrame) :
  names (take_rows ps df) = names df.
Proof.
  unfold names. simpl. rewrite <- list_fmap_compose. done.
Qed.

Lemma position_seq (n l : nat) : l < n → position l (seq 0 n) = Some l.
Proof.
  intros Hl. unfold position.
  assert (list_find (fun l' => l' = l) (seq 0 n) = Some (l, l)) as ->; [|done].
  apply list_find_Some. split; [by apply lookup_seq_lt|]. split; [done|].
  intros j y Hj Hlt ->. apply lookup_seq in Hj. lia.
Qed.

Lemma reindex_seq (vals : list cell) :
  reindex (seq 0 (length vals)) vals (seq 0 (length vals)) = vals.
Proof.
  apply list_eq. intros i. unfold reindex. rewrite list_lookup_fmap.
  destruct (vals !! i) as [v|] eqn:Hv.
  - assert (i < length vals) as Hi by (apply lookup_lt_is_Some; eauto).
    rewrite lookup_seq_lt by done. simpl.
    rewrite position_seq by done. by rewrite (nth_lookup_Some _ _ _ _ Hv).
  - assert (length vals ≤ i)%nat as Hi by by apply lookup_ge_None.
    by rewrite (proj2 (lookup_ge_None _ _)) by (rewrite length_seq; lia).
Qed.

Lemma concat_columns_reset (a b : DataFrame) :
  well_formed a → well_formed b → nrows a = nrows b →
  concat_columns (reset_index a) (reset_index b)
  = {| index := seq 0 (nrows a); columns := columns a ++ columns b |}.
Proof.
  intros Ha Hb Hn. unfold concat_columns, reset_index. simpl.
  rewrite <- Hn. rewrite decide_True by done. f_equal. f_equal.
  - rewrite <- (map_id (columns a)) at 2. apply map_ext_Forall.
    eapply Forall_impl; [exact Ha|]. intros [c vs] Hc. simpl in *.
    by rewrite <- Hc, reindex_seq.
  - rewrite <- (map_id (columns b)) at 2. apply map_ext_Forall.
    eapply Forall_impl; [exact Hb|]. intros [c vs] Hc. simpl in *.
    rewrite Hn. by rewrite <- Hc, reindex_seq.
Qed.

(** *** Assigning a column *)

Lemma get_overwrite (name : string) (vals : list cell)
      (d : ODict.t (list cell)) (k : string) :
  ODict.get k (map (fun c => if decide (c.1 = name) then (c.1, vals) else c) d)
  = if decide (k = name) then (fun _ => vals) <$> ODict.get k d
    else ODict.get k d.
Proof.
  induction d as [|[k' v'] d IH]; simpl; [by destruct (decide (k = name))|].
  destruct (decide (k' = name)) as [->|Hne]; simpl.
  - destruct (decide (name = k)) as [<-|Hne]; [by rewrite decide_True|].
    rewrite IH. done.
  - destruct (decide (k' = k)) as [->|Hne']; [by rewrite decide_False|].
    exact IH.
Qed.

Lemma names_overwrite (name : string) (vals : list cell) (d : ODict.t (list cell)) :
  (map (fun c => if decide (c.1 = name) then (c.1, vals) else c) d).*1 = d.*1.
Proof.
  induction d as [|[k' v'] d IH]; simpl; [done|].
  destruct (decide (k' = name)); simpl; f_equal; exact IH.
Qed.

Lemma filter_label_absent (name : string) (labels : list string) :
  name ∉ labels → filter (fun label => label = name) labels = [].
Proof.
  intros Hnin. apply elem_of_nil_inv. intros x Hx.
  apply list_elem_of_filter in Hx as [-> Hx]. done.
Qed.

Lemma filter_label_once (name : string) (labels : list string) :
  NoDup labels → name ∈ labels →
  filter (fun label => label = name) labels = [name].
Proof.
  induction 1 as [|x labels Hx Hnd IH]; intros Hin; [by apply elem_of_nil in Hin|].
  rewrite filter_cons. destruct (decide (x = name)) as [->|Hne].
  - by rewrite (filter_label_absent name labels Hx).
  - apply IH. apply elem_of_cons in Hin as [?|?]; [congruence | done].
Qed.

Lemma setitem_spec (df : DataFrame) (name : string) (vals : list cell) :
  length vals = nrows df → well_formed df → NoDup (names df) →
  ∃ df',
    setitem df name vals = Ok df'
    ∧ index df' = index df
    ∧ well_formed df'
    ∧ NoDup (names df')
    ∧ column name df' = Some vals
    ∧ (∀ c, c ≠ name → column c df' = column c df)
    ∧ (∀ c, c ∈ names df → c ∈ names df').
Proof.
  intros Hlen Hwf Hnd. unfold setitem. rewrite decide_True by done.
  destruct (decide (name ∈ names df)) as [Hin|Hnin];
    [rewrite (filter_label_once name (names df) Hnd Hin)
    |rewrite (filter_label_absent name (names df) Hnin)];
    unfold column, names, well_formed, nrows in *;
    (eexists; split; [done|]; simpl).
  - split; [done|]. split; [|split; [|split; [|split]]].
    + apply Forall_forall. intros c Hc.
      apply list_elem_of_fmap in Hc as ([c' vs] & -> & Hc). simpl.
      destruct (decide (c' = name)); simpl; [done|].
      rewrite Forall_forall in Hwf. by apply (Hwf (c', vs)).
    + by rewrite names_overwrite.
    + rewrite get_overwrite, decide_True by done.
      by destruct (get_is_Some _ _ Hin) as [v ->].
    + intros c Hc. by rewrite get_overwrite, decide_False.
    + intros c Hc. by rewrite names_overwrite.
  - split; [done|]. split; [|split; [|split; [|split]]].
    + apply Forall_app. split; [done|]. by apply Forall_singleton.
    + rewrite fmap_app. apply NoDup_app. split; [done|]. split.
      * intros x Hx Hx'. apply list_elem_of_singleton in Hx'. by subst.
      * apply NoDup_singleton.
    + rewrite get_app. rewrite (proj2 (ODictProofs.get_None _ _) Hnin).
      simpl. by rewrite decide_True.
    + intros c Hc. rewrite get_app. destruct (ODict.get c (columns df)); [done|].
      simpl. by rewrite decide_False.
    + intros c Hc. rewrite fmap_app. apply elem_of_app. by left.
Qed.

(** *** Stacking rows *)

Lemma filter_not_elem_self {A : Type} `{EqDecision A} (l : list A) :
  filter (fun x => x ∉ l) l = [].
Proof.
  apply elem_of_nil_inv. intros x Hx.
  apply list_elem_of_filter in Hx as [Hx Hx']. done.
Qed.

Lemma zip_columns (d1 d2 : ODict.t (list cell)) (x1 x2 : list cell) :
  d1.*1 = d2.*1 → NoDup d1.*1 →
  zip_with (fun ca cb => (ca.1, ca.2 ++ cb.2)) d1 d2
  = map (fun c => (c, default x1 (ODict.get c d1) ++ default x2 (ODict.get c d2)))
        d1.*1.
Proof.
  revert d2. induction d1 as [|[k v] d1 IH]; intros [|[k' w] d2] Hk Hnd;
    try done.
  simpl in Hk. injection Hk as <- Hk. simpl in Hnd.
  apply NoDup_cons in Hnd as [Hfresh Hnd].
  simpl. rewrite !decide_True by done. simpl. f_equal.
  rewrite (IH d2 Hk Hnd). apply map_ext_Forall, Forall_forall.
  intros c Hc.
  assert (k ≠ c) as Hne by (intros ->; exact (Hfresh Hc)).
  by rewrite !(decide_False _ _ Hne).
Qed.

Lemma concat_rows_NoDup (a b : DataFrame) :
  NoDup (names a) → NoDup (names b) →
  concat_rows a b
  = Ok {| index := index a ++ index b;
          columns := map (fun c => (c, column_or_nan c a ++ column_or_nan c b))
                         (union_labels (names a) (names b)) |}.
Proof.
  intros Ha Hb. unfold concat_rows.
  destruct (decide (names a = names b)) as [Heq|Hne].
  - f_equal. f_equal. unfold union_labels. rewrite <- Heq.
    rewrite filter_not_elem_self, app_nil_r. by apply zip_columns.
  - by rewrite decide_True.
Qed.

Lemma get_tabulate {V : Type} (f : string → V) (l : list string) (k : string) :
  ODict.get k (map (fun c => (c, f c)) l)
  = if decide (k ∈ l) then Some (f k) else None.
Proof.
  induction l as [|c l IH]; simpl; [done|].
  destruct (decide (c = k)) as [->|Hne].
  - rewrite decide_True; [done|]. apply elem_of_cons. by left.
  - rewrite IH. destruct (decide (k ∈ l)) as [Hin|Hnin].
    + rewrite decide_True; [done|]. apply elem_of_cons. by right.
    + rewrite decide_False; [done|]. intros Hin.
      apply elem_of_cons in Hin as [->|Hin]; done.
Qed.

Lemma elem_of_union_labels (a b : list string) (c : string) :
  c ∈ union_labels a b ↔ c ∈ a ∨ c ∈ b.
Proof.
  unfold union_labels. rewrite elem_of_app, list_elem_of_filter.
  destruct (decide (c ∈ a)); tauto.
Qed.

Lemma length_column_or_nan (c : string) (df : DataFrame) :
  well_formed df → length (column_or_nan c df) = nrows df.
Proof.
  intros Hwf. unfold column_or_nan, column.
  destruct (ODict.get c (columns df)) as [vs|] eqn:Hc; simpl.
  - apply get_Some_key in Hc as [_ Hc].
    unfold well_formed in Hwf. rewrite Forall_forall in Hwf. by apply (Hwf (c, vs)).
  - apply length_replicate.
Qed.

End PandasProofs.

(** ** The sample of right and wrong pairs *)
Module DataSetProofs.
Import Pandas PandasProofs DataSetClass DataSetSpec.

Lemma get_sample_Ok_inv (n : Z) (self self' : DataSet) (g g' : rng) :
  get_sample n self g = Ok (self', g') → in_range n self.
Proof.
  unfold get_sample. intros H.
  apply bind_Ok in H as ([pairs g1] & H1 & H).
  apply bind_Ok in H as ([src g2] & H2 & H).
  apply bind_Ok in H as ([tgt g3] & H3 & _).
  apply sample_Ok_inv in H1, H2, H3. unfold in_range. lia.
Qed.

(** Out of range, the failing [sample] ends the call. *)
Lemma get_sample_Raise (n : Z) (self : DataSet) (g : rng) :
  ¬ in_range n self → get_sample n self g = Raise ValueError.
Proof.
  intros Hn. unfold get_sample.
  destruct (sample_cases n (preprocessed_dataframe self) g)
    as [[-> _]|([pairs g1] & -> & H1)]; [done|]. cbn [mbind result_bind].
  destruct (sample_cases n (preprocessed_source self) g1)
    as [[-> _]|([src g2] & -> & H2)]; [done|]. cbn [mbind result_bind].
  destruct (sample_cases n (preprocessed_target self) g2)
    as [[-> _]|([tgt g3] & -> & H3)]; [done|].
  exfalso. apply Hn. unfold in_range. lia.
Qed.

(** What a call within range computes. *)
Lemma get_sample_spec (n : Z) (self : DataSet) (g : rng) :
  proper self → in_range n self →
  ∃ ds ps1 ps2 ps3 g',
    draws n self g = (ps1, ps2, ps3, g')
    ∧ get_sample n self g
      = Ok ({| preprocessed_dataframe := preprocessed_dataframe self;
               preprocessed_source := preprocessed_source self;
               preprocessed_target := preprocessed_target self;
               dataset := Some ds |}, g')
    ∧ draw_of ps1 n (preprocessed_dataframe self)
    ∧ draw_of ps2 n (preprocessed_source self)
    ∧ draw_of ps3 n (preprocessed_target self)
    ∧ index ds = seq 0 (Z.to_nat n + Z.to_nat n)
    ∧ (∀ c vs, column c (preprocessed_dataframe self) = Some vs →
         ∃ bottom, column c ds = Some (select NaN ps1 vs ++ bottom))
    ∧ (∀ c vs, c ≠ "Translation" → column c (preprocessed_source self) = Some vs →
         ∃ top, length top = Z.to_nat n
                ∧ column c ds = Some (top ++ select NaN ps2 vs))
    ∧ (∀ c vs, c ≠ "Translation" → column c (preprocessed_target self) = Some vs →
         ∃ top, length top = Z.to_nat n
                ∧ column c ds = Some (top ++ select NaN ps3 vs))
    ∧ (∃ top, length top = Z.to_nat n
              ∧ column "Translation" ds
                = Some (top ++ replicate (Z.to_nat n) (Num 0))
              ∧ ∀ vs, column "Translation" (preprocessed_dataframe self) = Some vs →
                      top = select NaN ps1 vs).
Proof.
  intros [Hwf1 Hwf2 Hwf3 Hnd1 Hnd23] (Hn0 & Hn1 & Hn2 & Hn3).
  unfold get_sample, draws.
  destruct (sample_Ok n (preprocessed_dataframe self) g ltac:(lia)) as [-> Hd1].
  destruct (choice (Z.to_nat n) (seq 0 (nrows (preprocessed_dataframe self))) g)
    as [ps1 g1]. cbn [mbind result_bind fst snd] in *.
  destruct (sample_Ok n (preprocessed_source self) g1 ltac:(lia)) as [-> Hd2].
  destruct (choice (Z.to_nat n) (seq 0 (nrows (preprocessed_source self))) g1)
    as [ps2 g2]. cbn [mbind result_bind fst snd] in *.
  destruct (sample_Ok n (preprocessed_target self) g2 ltac:(lia)) as [-> Hd3].
  destruct (choice (Z.to_nat n) (seq 0 (nrows (preprocessed_target self))) g2)
    as [ps3 g3]. cbn [mbind result_bind fst snd] in *.
  assert (length ps1 = Z.to_nat n) as Hl1 by (destruct Hd1; lia).
  assert (length ps2 = Z.to_nat n) as Hl2 by (destruct Hd2; lia).
  assert (length ps3 = Z.to_nat n) as Hl3 by (destruct Hd3; lia).
  set (S' := take_rows ps2 (preprocessed_source self)).
  set (T' := take_rows ps3 (preprocessed_target self)).
  set (R := reset_index (take_rows ps1 (preprocessed_dataframe self))).
  rewrite (concat_columns_reset S' T');
    [|apply well_formed_take_rows|apply well_formed_take_rows
     |unfold S', T'; rewrite !nrows_take_rows; lia].
  assert (nrows S' = Z.to_nat n) as HnS by (unfold S'; by rewrite nrows_take_rows).
  rewrite HnS.
  set (W0 := {| index := seq 0 (Z.to_nat n); columns := columns S' ++ columns T' |}).
  assert (nrows W0 = Z.to_nat n) as HnW0 by (unfold nrows; simpl; apply length_seq).
  assert (well_formed W0) as HwfW0.
  { unfold well_formed. rewrite HnW0. simpl. apply Forall_app. split.
    - rewrite <- Hl2. apply columns_take_rows_length.
    - rewrite <- Hl3. apply columns_take_rows_length. }
  assert (names W0 = names (preprocessed_source self)
                     ++ names (preprocessed_target self)) as HnamesW0.
  { unfold names at 1. cbn [columns W0]. rewrite fmap_app.
    f_equal; apply names_take_rows. }
  destruct (setitem_spec W0 "Translation" (np_zeros (nrows W0)))
    as (W & -> & HiW & HwfW & HndW & HtrW & HotherW & HnamesW).
  { unfold np_zeros. apply length_replicate. }
  { done. }
  { by rewrite HnamesW0. }
  cbn [mbind result_bind].
  assert (nrows W = Z.to_nat n) as HnW by (unfold nrows; by rewrite HiW).
  assert (nrows R = Z.to_nat n) as HnR
      by (unfold R, nrows; simpl; rewrite length_seq, <- Hl1;
          apply nrows_take_rows).
  assert (well_formed R) as HwfR.
  { unfold well_formed. rewrite HnR. simpl.
    rewrite <- Hl1. apply columns_take_rows_length. }
  assert (names R = names (preprocessed_dataframe self)) as HnamesR
      by apply names_take_rows.
  assert (∀ c, column c R
               = select NaN ps1 <$> column c (preprocessed_dataframe self)) as HcolR
      by (intros c; apply column_take_rows).
  rewrite (concat_rows_NoDup R W) by (by rewrite ?HnamesR).
  cbn [mbind result_bind].
  eexists _, ps1, ps2, ps3, g3. split; [done|]. split; [done|].
  split; [done|]. split; [done|]. split; [done|].
  assert (∀ c, c ∈ names R ∨ c ∈ names W →
               column c (reset_index
                           {| index := index R ++ index W;
                              columns := map (fun c => (c, column_or_nan c R
                                                           ++ column_or_nan c W))
                                             (union_labels (names R) (names W)) |})
               = Some (column_or_nan c R ++ column_or_nan c W)) as Hcol.
  { intros c Hc. unfold column at 1. simpl.
    rewrite (get_tabulate (fun c => column_or_nan c R ++ column_or_nan c W)).
    rewrite decide_True; [done|]. by apply elem_of_union_labels. }
  assert (∀ c vs, column c (preprocessed_dataframe self) = Some vs →
                  c ∈ names R ∧ column_or_nan c R = select NaN ps1 vs) as HR.
  { intros c vs Hc. split.
    - rewrite HnamesR. by apply get_Some_key in Hc as [Hc _].
    - unfold column_or_nan. by rewrite HcolR, Hc. }
  assert (∀ c vs, c ≠ "Translation" →
                  column c W0 = Some vs →
                  c ∈ names W ∧ column_or_nan c W = vs) as HW.
  { intros c vs Hne Hc. split.
    - apply HnamesW. by apply get_Some_key in Hc as [Hc _].
    - unfold column_or_nan. by rewrite (HotherW c Hne), Hc. }
  assert (∀ c, ODict.get c (columns S')
               = select NaN ps2 <$> column c (preprocessed_source self)) as HcS
      by (intros c; apply column_take_rows).
  assert (∀ c, ODict.get c (columns T')
               = select NaN ps3 <$> column c (preprocessed_target self)) as HcT
      by (intros c; apply column_take_rows).
  split; [|split; [|split; [|split]]].
  - unfold reset_index at 1. cbn [index]. f_equal.
    unfold nrows at 1. cbn [index]. rewrite length_app.
    change (length (index R)) with (nrows R).
    change (length (index W)) with (nrows W). by rewrite HnR, HnW.
  - intros c vs Hc. destruct (HR c vs Hc) as [Hin Heq].
    eexists. rewrite Hcol by (by left). by rewrite Heq.
  - intros c vs Hne Hc.
    destruct (HW c (select NaN ps2 vs) Hne) as [Hin Heq].
    { unfold column, W0. cbn [columns]. by rewrite get_app, HcS, Hc. }
    exists (column_or_nan c R). split.
    + by rewrite length_column_or_nan.
    + rewrite Hcol by (by right). by rewrite Heq.
  - intros c vs Hne Hc.
    destruct (HW c (select NaN ps3 vs) Hne) as [Hin Heq].
    { unfold column, W0. cbn [columns]. rewrite get_app, HcS, HcT, Hc.
      assert (column c (preprocessed_source self) = None) as ->; [|done].
      apply ODictProofs.get_None. intros Hin.
      apply NoDup_app in Hnd23 as (_ & Hdisj & _). apply (Hdisj c Hin).
      by apply get_Some_key in Hc as [Hc _]. }
    exists (column_or_nan c R). split.
    + by rewrite length_column_or_nan.
    + rewrite Hcol by (by right). by rewrite Heq.
  - exists (column_or_nan "Translation" R). split; [|split].
    + by rewrite length_column_or_nan.
    + rewrite Hcol.
      * unfold column_or_nan at 2. rewrite HtrW. simpl.
        unfold np_zeros. by rewrite HnW0.
      * right. by apply get_Some_key in HtrW as [HtrW _].
    + intros vs Hvs. by destruct (HR _ _ Hvs) as [_ ->].
Qed.



Lemma three_pairs_proper : proper three_pairs.
Proof.
  split; unfold well_formed; simpl; try by_compute; repeat constructor.
Qed.




End DataSetProofs.

(** ** Word embeddings *)
Module WordEmbeddingsProofs.
Import PreprocessData WordEmbeddingsSpec.

Lemma ndarray_row_Raise {A : Type} (array : list A) (i : Z) (e : exn) :
  ndarray_row array i = Raise e → e = IndexError.
Proof.
  unfold ndarray_row. destruct (_ <? 0)%Z; [congruence|].
  destruct (array !! _); congruence.
Qed.

Section Lookup.
Context {A : Type}.
Variable embedding_array : list (list A).
Variable embedding_dictionary : gmap string Z.

Abbreviation embedding_step :=
  (embedding_step embedding_array embedding_dictionary).
Abbreviation looked_up := (looked_up embedding_dictionary).

Lemma embedding_step_Ok (d d' : ODict.t (list A)) (token : string) :
  embedding_step d token = Ok d' →
  (looked_up token
   ∧ ∃ i row, embedding_dictionary !! token = Some i
              ∧ ndarray_row embedding_array i = Ok row
              ∧ d' = ODict.setitem d token row)
  ∨ (¬ looked_up token ∧ d' = d).
Proof.
  unfold WordEmbeddingsSpec.embedding_step, WordEmbeddingsSpec.looked_up,
    bool_of_int.
  destruct (embedding_dictionary !! token) as [i|] eqn:Hi.
  - destruct (Z.eqb_spec i 0) as [->|Hne]; simpl.
    + intros [= <-]. right. split; [|done]. intros (j & [= <-] & Hj). done.
    + intros H. apply bind_Ok in H as (row & Hrow & [= <-]).
      left. split; [by exists i|]. by exists i, row.
  - intros [= <-]. right. split; [|done]. intros (j & [=] & _).
Qed.

(** The columns after the loop: the earlier ones and the looked-up
    tokens, each holding the row its index selects. *)
Lemma embedding_loop (token_list : list string) (d d' : ODict.t (list A)) :
  for_each embedding_step d token_list = Ok d' →
  (∀ token, token ∈ ODict.keys d' ↔
            token ∈ ODict.keys d ∨ (token ∈ token_list ∧ looked_up token))
  ∧ (∀ token, token ∈ token_list → looked_up token →
              ∃ i, embedding_dictionary !! token = Some i
                   ∧ ndarray_row embedding_array i
                     = ODict.getitem d' token).
Proof.
  revert d. induction token_list as [|t ts IH]; intros d H.
  - injection H as <-. split.
    + intros token. rewrite elem_of_nil. tauto.
    + intros token Hin. by apply elem_of_nil in Hin.
  - rewrite for_each_cons in H. apply bind_Ok in H as (d1 & Hstep & H).
    destruct (IH _ H) as [Hkeys Hrows]. clear IH.
    assert (∀ token, token ∈ ODict.keys d1 ↔
                     token ∈ ODict.keys d ∨ (token = t ∧ looked_up t)) as Hk1.
    { intros token.
      apply embedding_step_Ok in Hstep as [(Hl & i & row & _ & _ & ->)|[Hl ->]].
      - rewrite ODictProofs.elem_of_keys_setitem. tauto.
      - tauto. }
    split.
    + intros token. rewrite Hkeys, Hk1, elem_of_cons.
      split; [intros [[?|[-> ?]]|[? ?]]; auto | intros [?|[[->|?] ?]]; auto].
    + intros token Hin Hl.
      destruct (decide (token ∈ ts)) as [Hts|Hts]; [by apply Hrows|].
      apply elem_of_cons in Hin as [->|Hin]; [|done].
      apply embedding_step_Ok in Hstep as [(_ & i & row & Hi & Hrow & ->)|[Hl' _]];
        [|done].
      exists i. split; [done|]. rewrite Hrow. unfold ODict.getitem.
      assert (ODict.get t d' = Some row) as ->; [|done].
      clear Hkeys Hrows Hk1. revert H. generalize (ODictProofs.get_setitem_eq d t row).
      generalize (ODict.setitem d t row). clear Hrow.
      induction ts as [|t' ts IH]; intros d0 Hget H.
      * by injection H as <-.
      * rewrite for_each_cons in H. apply bind_Ok in H as (d1 & Hstep & H).
        apply (IH ltac:(intros Hin; apply Hts; by apply elem_of_cons; right) d1);
          [|done].
        apply embedding_step_Ok in Hstep as [(_ & j & row' & _ & _ & ->)|[_ ->]];
          [|done].
        rewrite ODictProofs.get_setitem_ne; [done|].
        intros ->. apply Hts. apply elem_of_cons. by left.
Qed.

Lemma embedding_loop_Raise (token_list : list string) (d : ODict.t (list A))
      (token : string) (i : Z) (e : exn) :
  token ∈ token_list →
  embedding_dictionary !! token = Some i → bool_of_int i = true →
  ndarray_row embedding_array i = Raise e →
  for_each embedding_step d token_list = Raise IndexError.
Proof.
  intros Hin Hi Hb Hrow. revert d.
  induction token_list as [|t ts IH]; intros d; [by apply elem_of_nil in Hin|].
  rewrite for_each_cons.
  destruct (embedding_step d t) as [d1|e1] eqn:Hstep; simpl.
  - apply elem_of_cons in Hin as [->|Hin]; [|by apply IH].
    unfold WordEmbeddingsSpec.embedding_step in Hstep. rewrite Hi, Hb, Hrow in Hstep. done.
  - unfold WordEmbeddingsSpec.embedding_step in Hstep.
    destruct (embedding_dictionary !! t) as [j|]; [|done].
    destruct (bool_of_int j); [|done].
    destruct (ndarray_row embedding_array j) as [row|e2] eqn:Hj; [done|].
    apply ndarray_row_Raise in Hj as ->. simpl in Hstep. congruence.
Qed.

End Lookup.

Lemma token_list_embedding_columns {A : Type} (embedding_array : list (list A))
      (embedding_dictionary : gmap string Z) (token_list : list string)
      (frame : ODict.t (list A)) :
  token_list_embedding embedding_array embedding_dictionary token_list = Ok frame →
  (∀ token, token ∈ ODict.keys frame ↔
            token ∈ token_list ∧ looked_up embedding_dictionary token)
  ∧ (∀ token, token ∈ token_list → looked_up embedding_dictionary token →
              ∃ i, embedding_dictionary !! token = Some i
                   ∧ ndarray_row embedding_array i = ODict.getitem frame token).
Proof.
  intros H. apply embedding_loop in H as [Hkeys Hrows]. split; [|done].
  intros token. rewrite Hkeys. unfold ODict.keys. simpl. rewrite elem_of_nil.
  tauto.
Qed.

(** C4, at the failing input. The token [the] is a key of the embedding
    dictionary, with index 0, and row 0 of the array is its embedding;
    yet the frame computed for the token list has no column [the]. *)
Theorem word_embeddings_drops_index_zero :
  two_words !! "the" = Some 0%Z
  ∧ ndarray_row two_rows 0 = Ok [1; 2]%Z
  ∧ word_embeddings [["the"; "cat"]] two_rows two_words
    = Ok [[("cat", [3; 4]%Z)]].
Proof. vm_compute. done. Qed.

End WordEmbeddingsProofs.

(** ** Exceptions *)
Module ExceptionProofs.
Import Pandas DataSetClass FeatureGenerationClass PreprocessData.

(** C5 (amended). [translate_words] recovers from a failed lookup: the
    [KeyError] of a word without an entry in the translation dictionary
    is caught and the word is skipped, so the call never raises and
    returns, for each token list, the translations of the words that
    have an entry, in their order. The other operations have no handler:
    a sample out of range ends [get_sample] with the [ValueError], a row
    index out of range ends [token_list_embedding] with the
    [IndexError], and a missing column ends [feature_generation] with
    the [KeyError]. *)
Theorem only_translate_words_recovers :
  (∀ (token_vector : list (list string))
     (translation_dictionary : gmap string string),
      translate_words token_vector translation_dictionary
      = Ok (map (omap (fun word => translation_dictionary !! word)) token_vector))
  ∧ (∀ (n : Z) (self : DataSet) (g : rng),
        ¬ DataSetSpec.in_range n self →
        get_sample n self g = Raise ValueError)
  ∧ (∀ (A : Type) (embedding_array : list (list A))
       (embedding_dictionary : gmap string Z) (token_list : list string)
       (token : string) (i : Z),
        token ∈ token_list →
        embedding_dictionary !! token = Some i →
        bool_of_int i = true →
        ndarray_row embedding_array i = Raise IndexError →
        token_list_embedding embedding_array embedding_dictionary token_list
        = Raise IndexError)
  ∧ (∀ (Series : Type)
       (difference_numerical relative_difference_numerical : Series → Series → Series)
       (normalized_difference_numerical : Series → Series → Series → Series → Series)
       (series_add : Series → Series → Series) (ds : ODict.t Series),
        ¬ FeatureGenerationSpec.has_columns ds →
        feature_generation difference_numerical relative_difference_numerical
                           normalized_difference_numerical series_add (init ds)
        = Raise KeyError).
Proof.
  split; [|split; [|split]].
  - apply TranslateWordsProofs.translate_words_spec.
  - apply DataSetProofs.get_sample_Raise.
  - intros A arr dict tokens token i Hin Hi Hb Hrow.
    by eapply WordEmbeddingsProofs.embedding_loop_Raise.
  - intros Series f1 f2 f3 add ds.
    apply FeatureGenerationProofs.feature_generation_missing_column.
Qed.

(** A word without an entry is skipped, not an error. *)
Lemma translate_words_missing_entry :
  PreprocessData.dict_getitem (<["ja" := "yes"]> ∅ : gmap string string) "vielleicht"
  = Raise KeyError
  ∧ translate_words [["ja"; "vielleicht"]] (<["ja" := "yes"]> ∅) = Ok [["yes"]].
Proof. vm_compute. done. Qed.

Lemma only_translate_words_recovers_witness :
  translate_words [["ja"; "vielleicht"]; ["vielleicht"]] (<["ja" := "yes"]> ∅)
  = Ok [["yes"]; []]
  ∧ get_sample 4 DataSetSpec.three_pairs [5; 3; 1] = Raise ValueError
  ∧ token_list_embedding WordEmbeddingsSpec.two_rows
                         (<["dog" := 2%Z]> WordEmbeddingsSpec.two_words)
                         ["cat"; "dog"]
    = Raise IndexError
  ∧ feature_generation
      FeatureGenerationSpec.Difference FeatureGenerationSpec.Relative
      FeatureGenerationSpec.Normalized FeatureGenerationSpec.Plus
      (init [("Translation", FeatureGenerationSpec.Col "Translation")])
    = Raise KeyError.
Proof.
  destruct only_translate_words_recovers as (H1 & H2 & H3 & H4).
  split; [|split; [|split]].
  - apply (H1 [["ja"; "vielleicht"]; ["vielleicht"]]).
  - apply H2. unfold DataSetSpec.in_range. vm_compute. intuition.
  - apply (H3 Z _ _ _ "dog" 2%Z); [by_compute | reflexivity..].
  - apply H4. intros [H _]. rewrite Forall_forall in H.
    destruct (H "number_words") as [[s Hs] _]; [by_compute|].
    vm_compute in Hs. discriminate Hs.
Defined.

End ExceptionProofs.

(** ** Translation dictionaries *)
Module TranslationProofs.
Import PreprocessData TranslationSpec.

Local Open Scope Q_scope.

(** *** The first position of [argsort] *)

Lemma elem_of_insert_by (key : nat → Q) (i : nat) (l : list nat) (x : nat) :
  x ∈ insert_by key i l ↔ x = i ∨ x ∈ l.
Proof.
  induction l as [|j l IH]; simpl.
  - rewrite list_elem_of_singleton, elem_of_nil. tauto.
  - destruct (Qle_bool (key i) (key j)).
    + by rewrite !elem_of_cons.
    + rewrite !elem_of_cons, IH. tauto.
Qed.

Lemma insert_by_head_least (key : nat → Q) (i : nat) (l : list nat) :
  head_least key l → head_least key (insert_by key i l).
Proof.
  destruct l as [|j l]; simpl.
  - intros _. apply Forall_singleton. apply Qle_refl.
  - intros Hj. destruct (Qle_bool (key i) (key j)) eqn:Hij.
    + apply Qle_bool_iff in Hij. simpl. apply Forall_cons. split; [apply Qle_refl|].
      eapply Forall_impl; [exact Hj|]. intros x Hx. simpl in Hx.
      by apply Qle_trans with (key j).
    + simpl. apply Forall_forall. intros x Hx.
      apply elem_of_cons in Hx as [->|Hx]; [apply Qle_refl|].
      apply elem_of_insert_by in Hx as [->|Hx].
      * apply Qlt_le_weak, Qnot_le_lt. intros Hle.
        apply Qle_bool_iff in Hle. congruence.
      * rewrite Forall_forall in Hj. apply Hj. apply elem_of_cons. by right.
Qed.

Lemma argsort_positions (key : nat → Q) (l : list nat) :
  head_least key (fold_right (insert_by key) [] l)
  ∧ ∀ x, x ∈ fold_right (insert_by key) [] l ↔ x ∈ l.
Proof.
  induction l as [|i l [IH1 IH2]]; simpl; [done|]. split.
  - by apply insert_by_head_least.
  - intros x. by rewrite elem_of_insert_by, IH2, elem_of_cons.
Qed.

Lemma argsort_head (a : list Q) (i : nat) (rest : list nat) :
  argsort a = i :: rest →
  (i < length a)%nat ∧ ∀ j, (j < length a)%nat → nth i a 0 <= nth j a 0.
Proof.
  unfold argsort. intros H.
  destruct (argsort_positions (fun i => nth i a 0) (seq 0 (length a)))
    as [Hleast Hpos].
  rewrite H in Hleast, Hpos. simpl in Hleast. split.
  - assert (i ∈ seq 0 (length a)) as Hi by (apply Hpos, elem_of_cons; by left).
    apply elem_of_seq in Hi. lia.
  - intros j Hj. rewrite Forall_forall in Hleast. apply Hleast, Hpos.
    apply elem_of_seq. lia.
Qed.

Lemma argsort_nonempty (a : list Q) : a ≠ [] → argsort a ≠ [].
Proof.
  intros Ha Hnil.
  destruct (argsort_positions (fun i => nth i a 0) (seq 0 (length a))) as [_ Hpos].
  fold (argsort a) in Hpos. rewrite Hnil in Hpos.
  destruct a as [|x a]; [done|].
  assert ((0%nat) ∈ seq 0 (length (x :: a))) as H0 by (apply elem_of_seq; simpl; lia).
  apply Hpos in H0. by apply elem_of_nil in H0.
Qed.

(** *** The tokens with an embedding *)

Section OneLanguage.
Variable embedding_array : list (list Q).
Variable embedding_dictionary : gmap string Z.

Abbreviation kept := (kept_rows embedding_array embedding_dictionary).
Abbreviation emb := (embedding_of embedding_array embedding_dictionary).

Lemma elem_of_kept (tokens : list string) (token : string) (row : list Q) :
  (token, row) ∈ kept tokens ↔ token ∈ tokens ∧ emb token = Some row.
Proof.
  unfold kept_rows. rewrite list_elem_of_omap. split.
  - intros (t & Ht & H). destruct (emb t) as [r|] eqn:Hr; [|done].
    simpl in H. injection H as -> ->. done.
  - intros [Ht H]. exists token. by rewrite H.
Qed.

Lemma get_kept (tokens : list string) (token : string) :
  token ∈ tokens → ODict.get token (kept tokens) = emb token.
Proof.
  induction tokens as [|t ts IH]; intros Hin; [by apply elem_of_nil in Hin|].
  unfold kept_rows. simpl. destruct (decide (t = token)) as [->|Hne].
  - destruct (emb token) as [row|] eqn:Hrow; simpl.
    + by rewrite decide_True.
    + destruct (decide (token ∈ ts)) as [Hts|Hts]; [by apply IH|].
      apply ODictProofs.get_None. intros Hk.
      apply list_elem_of_fmap in Hk as ([t' r'] & -> & Hk).
      apply elem_of_kept in Hk as [Hk _]. done.
  - apply elem_of_cons in Hin as [->|Hin]; [done|].
    destruct (emb t) as [row|]; simpl; [rewrite decide_False by done|]; by apply IH.
Qed.

(** The loop that collects the embeddings, from any state that numbers
    its tokens in order. *)
Lemma subset_loop (tokens : list string) (st st' : subset_state) :
  NoDup (ODict.keys st.1.2 ++ tokens) →
  st.1.1 = length st.1.2 →
  (∀ j, st.2 !! j = ODict.keys st.1.2 !! j) →
  for_each (subset_step embedding_array embedding_dictionary) st tokens = Ok st' →
  st'.1.2 = st.1.2 ++ kept tokens
  ∧ st'.1.1 = length st'.1.2
  ∧ ∀ j, st'.2 !! j = ODict.keys st'.1.2 !! j.
Proof.
  revert st. induction tokens as [|t ts IH]; intros [[k wed] esd] Hnd Hk Hesd H.
  - injection H as <-. simpl in *. by rewrite app_nil_r.
  - rewrite for_each_cons in H. apply bind_Ok in H as (st1 & Hstep & H).
    simpl in Hnd, Hk, Hesd.
    assert (t ∉ ODict.keys wed) as Hfresh.
    { apply NoDup_app in Hnd as (_ & Hd & _). intros Hin.
      apply (Hd _ Hin). apply elem_of_cons. by left. }
    unfold subset_step in Hstep. unfold kept_rows, embedding_of. simpl.
    destruct (embedding_dictionary !! t) as [i|].
    2:{ injection Hstep as <-. apply IH in H; [done| |done|done].
        simpl. apply NoDup_app in Hnd as (H1 & H2 & H3).
        apply NoDup_cons in H3 as [_ H3]. apply NoDup_app.
        split; [done|]. split; [|done]. intros x Hx Hx'. apply (H2 x Hx).
        apply elem_of_cons. by right. }
    destruct (bool_of_int i).
    2:{ injection Hstep as <-. apply IH in H; [done| |done|done].
        simpl. apply NoDup_app in Hnd as (H1 & H2 & H3).
        apply NoDup_cons in H3 as [_ H3]. apply NoDup_app.
        split; [done|]. split; [|done]. intros x Hx Hx'. apply (H2 x Hx).
        apply elem_of_cons. by right. }
    apply bind_Ok in Hstep as (row & -> & Hstep). injection Hstep as <-.
    rewrite (ODictProofs.setitem_fresh _ _ _ Hfresh) in H.
    apply IH in H.
    + simpl in *. destruct H as (-> & -> & Hesd').
      rewrite <- app_assoc in Hesd'. rewrite <- app_assoc.
      split; [done|]. split; [done|]. exact Hesd'.
    + simpl. unfold ODict.keys in *. rewrite fmap_app. simpl.
      by rewrite <- app_assoc.
    + simpl. rewrite length_app. simpl. lia.
    + intros j. simpl. unfold ODict.keys in *. rewrite fmap_app. simpl.
      destruct (decide (j = k)) as [->|Hne].
      * rewrite lookup_insert_eq. rewrite lookup_app_r; rewrite length_fmap, Hk;
          [|lia]. by rewrite Nat.sub_diag.
      * rewrite lookup_insert_ne by done. rewrite Hesd.
        destruct (decide (j < k)%nat) as [Hlt|Hge].
        -- rewrite lookup_app_l; [done|]. rewrite length_fmap. lia.
        -- rewrite !lookup_ge_None_2; [done| |];
             rewrite ?length_app, length_fmap; simpl; lia.
Qed.

End OneLanguage.

(** *** Nearest neighbours *)

Lemma np_dot_Ok (v : list Q) (m : list (list Q)) (sims : list Q) :
  np_dot v m = Ok sims → sims = map (dot v) m ∧ m ≠ [].
Proof.
  unfold np_dot. destruct m as [|row m]; [done|].
  destruct (forallb _ _); [|done]. by intros [= <-].
Qed.

Lemma translation_nearest (token : string)
      (word_embedding_dictionary : ODict.t (list Q))
      (embedding_subset : list (list Q))
      (embedding_subset_dictionary : gmap nat string) (t : string) :
  translation token word_embedding_dictionary embedding_subset
              embedding_subset_dictionary = Ok t →
  ∃ v idx w,
    ODict.get token word_embedding_dictionary = Some v
    ∧ embedding_subset !! idx = Some w
    ∧ embedding_subset_dictionary !! idx = Some t
    ∧ ∀ w', w' ∈ embedding_subset → dot v w' <= dot v w.
Proof.
  unfold translation, ODict.getitem. intros H.
  destruct (ODict.get token word_embedding_dictionary) as [v|]; [|done].
  cbn [mbind result_bind] in H. apply bind_Ok in H as (sims & Hdot & H).
  apply np_dot_Ok in Hdot as [-> Hne].
  destruct (argsort (map Qopp (map (dot v) embedding_subset)))
    as [|idx rest] eqn:Hsort; [done|].
  apply argsort_head in Hsort as [Hidx Hleast].
  rewrite !length_map in Hidx, Hleast.
  destruct (embedding_subset_dictionary !! idx) as [t'|] eqn:Ht; [|done].
  injection H as ->.
  destruct (lookup_lt_is_Some_2 _ _ Hidx) as [w Hw].
  exists v, idx, w. repeat (split; [done|]).
  intros w' Hw'. apply list_elem_of_lookup in Hw' as [j Hj].
  assert (j < length embedding_subset)%nat as Hjlt
      by (apply lookup_lt_is_Some; eauto).
  specialize (Hleast j Hjlt).
  assert (∀ k x, embedding_subset !! k = Some x →
                 nth k (map Qopp (map (dot v) embedding_subset)) 0 = - dot v x)
    as Hnth.
  { intros k x Hk. apply nth_lookup_Some.
    by rewrite !list_lookup_fmap, Hk. }
  rewrite (Hnth _ _ Hw), (Hnth _ _ Hj) in Hleast.
  apply Qopp_le_compat in Hleast. by rewrite !Qopp_involutive in Hleast.
Qed.

(** The loop that fills a translation dictionary. *)
Lemma translation_loop (embedding_dictionary : gmap string Z)
      (word_embedding_dictionary : ODict.t (list Q))
      (embedding_subset : list (list Q))
      (embedding_subset_dictionary : gmap nat string)
      (tokens : list string) (m m' : gmap string string) :
  for_each (translation_step embedding_dictionary word_embedding_dictionary
                             embedding_subset embedding_subset_dictionary)
           m tokens = Ok m' →
  ∀ token i,
    token ∈ tokens → embedding_dictionary !! token = Some i → i ≠ 0%Z →
    ∃ t, m' !! token = Some t
         ∧ translation token word_embedding_dictionary embedding_subset
                       embedding_subset_dictionary = Ok t.
Proof.
  revert m. induction tokens as [|x xs IH]; intros m H token i Hin Hi Hne;
    [by apply elem_of_nil in Hin|].
  rewrite for_each_cons in H. apply bind_Ok in H as (m1 & Hstep & H).
  destruct (decide (token ∈ xs)) as [Hxs|Hxs]; [by eapply IH|].
  apply elem_of_cons in Hin as [->|Hin]; [|done].
  unfold translation_step in Hstep. rewrite Hi in Hstep.
  unfold bool_of_int in Hstep. rewrite (proj2 (Z.eqb_neq i 0) Hne) in Hstep.
  simpl in Hstep. apply bind_Ok in Hstep as (t & Ht & [= <-]).
  exists t. split; [|done]. clear IH Ht.
  assert (<[x:=t]> m !! x = Some t) as Hm by apply lookup_insert_eq.
  revert Hm H. generalize (<[x:=t]> m). clear m.
  induction xs as [|y ys IH]; intros m Hm H; [by injection H as <-|].
  rewrite for_each_cons in H. apply bind_Ok in H as (m1 & Hstep & H).
  apply (IH ltac:(intros Hy; apply Hxs, elem_of_cons; by right) m1); [|done].
  assert (y ≠ x) as Hyx by (intros ->; apply Hxs, elem_of_cons; by left).
  unfold translation_step in Hstep.
  destruct (embedding_dictionary !! y) as [j|]; [|by injection Hstep as <-].
  destruct (bool_of_int j); [|by injection Hstep as <-].
  apply bind_Ok in Hstep as (t' & _ & [= <-]). by rewrite lookup_insert_ne.
Qed.

(** One direction of [create_translation_dictionary]: [tokens] are
    translated into [others]. *)
Lemma translations_nearest
      (tokens others : list string)
      (embedding_array embedding_array_other : list (list Q))
      (embedding_dictionary embedding_dictionary_other : gmap string Z)
      (st st_other : subset_state) (translations : gmap string string) :
  NoDup tokens → NoDup others →
  for_each (subset_step embedding_array embedding_dictionary)
           (0%nat, [], ∅) tokens = Ok st →
  for_each (subset_step embedding_array_other embedding_dictionary_other)
           (0%nat, [], ∅) others = Ok st_other →
  for_each (translation_step embedding_dictionary st.1.2
                             (ODict.values st_other.1.2) st_other.2)
           ∅ tokens = Ok translations →
  ∀ s i,
    s ∈ tokens → embedding_dictionary !! s = Some i → i ≠ 0%Z →
    ∃ t v w,
      translations !! s = Some t
      ∧ t ∈ others
      ∧ embedding_of embedding_array embedding_dictionary s = Some v
      ∧ embedding_of embedding_array_other embedding_dictionary_other t = Some w
      ∧ ∀ t' w',
          t' ∈ others →
          embedding_of embedding_array_other embedding_dictionary_other t' = Some w' →
          dot v w' <= dot v w.
Proof.
  intros Hnd Hnd' Hsub Hsub' Hloop s i Hs Hi Hne.
  apply subset_loop in Hsub as (Hwed & _ & _); [|done..].
  apply subset_loop in Hsub' as (Hwed' & _ & Hesd'); [|done..].
  simpl in Hwed, Hwed'. rewrite Hwed, Hwed' in *.
  destruct (translation_loop _ _ _ _ _ _ _ Hloop s i Hs Hi Hne) as (t & Ht & Htr).
  apply translation_nearest in Htr as (v & idx & w & Hv & Hw & Hidx & Hmax).
  rewrite get_kept in Hv by done.
  rewrite Hesd' in Hidx. unfold ODict.keys, ODict.values in *.
  apply list_lookup_fmap_Some in Hw as ([t0 w0] & Hweq & Hrow).
  simpl in Hweq. subst w.
  rewrite list_lookup_fmap, Hrow in Hidx. simpl in Hidx. injection Hidx as ->.
  assert ((t, w0) ∈ kept_rows embedding_array_other embedding_dictionary_other others)
    as Hin by (apply list_elem_of_lookup; eauto).
  apply elem_of_kept in Hin as [Hin Hemb].
  exists t, v, w0. repeat (split; [done|]).
  intros t' w' Ht' Hemb'. apply Hmax.
  apply list_elem_of_fmap. exists (t', w'). split; [done|].
  by apply elem_of_kept.
Qed.

(** Away from index 0 the translation dictionaries are nearest-neighbour
    maps in both directions: a token whose dictionary index is not 0 is
    mapped to a token of the other language whose embedding has the
    largest dot product with its own, among the tokens of the other
    language whose index is not 0. *)
Lemma create_translation_dictionary_nearest
      (token_vector_source token_vector_target : list (list string))
      (embedding_array_normalized_source : list (list Q))
      (embedding_dictionary_source : gmap string Z)
      (embedding_array_normalized_target : list (list Q))
      (embedding_dictionary_target : gmap string Z)
      (to_target to_source : gmap string string) :
  create_translation_dictionary
    token_vector_source token_vector_target
    embedding_array_normalized_source embedding_dictionary_source
    embedding_array_normalized_target embedding_dictionary_target
  = Ok (to_target, to_source) →
  (∀ s i,
      s ∈ concat token_vector_source →
      embedding_dictionary_source !! s = Some i → i ≠ 0%Z →
      ∃ t v w,
        to_target !! s = Some t
        ∧ t ∈ concat token_vector_target
        ∧ embedding_of embedding_array_normalized_source
                       embedding_dictionary_source s = Some v
        ∧ embedding_of embedding_array_normalized_target
                       embedding_dictionary_target t = Some w
        ∧ ∀ t' w',
            t' ∈ concat token_vector_target →
            embedding_of embedding_array_normalized_target
                         embedding_dictionary_target t' = Some w' →
            dot v w' <= dot v w)
  ∧ (∀ t i,
        t ∈ concat token_vector_target →
        embedding_dictionary_target !! t = Some i → i ≠ 0%Z →
        ∃ s v w,
          to_source !! t = Some s
          ∧ s ∈ concat token_vector_source
          ∧ embedding_of embedding_array_normalized_target
                         embedding_dictionary_target t = Some v
          ∧ embedding_of embedding_array_normalized_source
                         embedding_dictionary_source s = Some w
          ∧ ∀ s' w',
              s' ∈ concat token_vector_source →
              embedding_of embedding_array_normalized_source
                           embedding_dictionary_source s' = Some w' →
              dot v w' <= dot v w).
Proof.
  unfold create_translation_dictionary, py_set. intros H.
  apply bind_Ok in H as ([[k1 wed1] esd1] & Hsub1 & H).
  apply bind_Ok in H as ([[k2 wed2] esd2] & Hsub2 & H).
  apply bind_Ok in H as (m1 & Hloop1 & H).
  apply bind_Ok in H as (m2 & Hloop2 & H). injection H as <- <-.
  pose proof (NoDup_remove_dups (concat token_vector_source)) as Hnd1.
  pose proof (NoDup_remove_dups (concat token_vector_target)) as Hnd2.
  split.
  - intros s i Hs Hi Hne. apply elem_of_remove_dups in Hs.
    destruct (translations_nearest _ _ _ _ _ _ _ _ _ Hnd1 Hnd2 Hsub1 Hsub2 Hloop1
                                   s i Hs Hi Hne)
      as (t & v & w & Ht & Hin & Hv & Hw & Hmax).
    exists t, v, w. rewrite elem_of_remove_dups in Hin.
    repeat (split; [done|]). intros t' w' Ht'. apply Hmax.
    by apply elem_of_remove_dups.
  - intros t i Ht Hi Hne. apply elem_of_remove_dups in Ht.
    destruct (translations_nearest _ _ _ _ _ _ _ _ _ Hnd2 Hnd1 Hsub2 Hsub1 Hloop2
                                   t i Ht Hi Hne)
      as (s & v & w & Hs & Hin & Hv & Hw & Hmax).
    exists s, v, w. rewrite elem_of_remove_dups in Hin.
    repeat (split; [done|]). intros s' w' Hs'. apply Hmax.
    by apply elem_of_remove_dups.
Qed.

(** C3, at the failing input. [katze] has an entry in the source
    dictionary but gets no translation; [haus] is closer to [cat] (4/5)
    than to [house] (3/5), both with entries in the target dictionary,
    but is mapped to [house]; and [cat] gets no translation back. *)
Theorem create_translation_dictionary_skips_index_zero :
  source_dictionary !! "katze" = Some 0%Z
  ∧ target_dictionary !! "cat" = Some 0%Z
  ∧ dot [4 # 5; 3 # 5] [0; 1] < dot [4 # 5; 3 # 5] [1; 0]
  ∧ create_translation_dictionary
      [["katze"; "haus"]] [["cat"; "house"]]
      source_array source_dictionary target_array target_dictionary
    = Ok (<["haus" := "house"]> ∅, <["house" := "haus"]> ∅).
Proof. vm_compute. done. Qed.

End TranslationProofs.

(** * Further properties *)

(** ** Cleaning and counting tokens *)
Module PreprocessTextProofs.
Import PreprocessData PreprocessText PreprocessTextSpec.

Lemma filter_idem {A : Type} (P : A → Prop) `{∀ x, Decision (P x)} (l : list A) :
  filter P (filter P l) = filter P l.
Proof.
  induction l as [|x l IH]; [done|]. rewrite filter_cons.
  destruct (decide (P x)) as [Hx|Hx]; [|done].
  rewrite filter_cons, decide_True by done. by rewrite IH.
Qed.

Lemma elem_of_concat {A : Type} (x : A) (ls : list (list A)) :
  x ∈ concat ls ↔ ∃ l, x ∈ l ∧ l ∈ ls.
Proof.
  rewrite list_elem_of_In, in_concat. split.
  - intros (l & Hl & Hx). exists l. by rewrite !list_elem_of_In.
  - intros (l & Hx & Hl). exists l. by rewrite <- !list_elem_of_In.
Qed.

Lemma prefix_chars (sub s : string) (c : ascii) :
  String.prefix sub s = true → c ∈ chars sub → c ∈ chars s.
Proof.
  revert sub. induction s as [|b s IH]; intros [|a sub] Hp Hc; simpl in *;
    try done; try by apply elem_of_nil in Hc.
  destruct (ascii_dec a b) as [->|]; [|done].
  apply elem_of_cons in Hc as [->|Hc]; apply elem_of_cons; [by left|right].
  by apply (IH sub).
Qed.

Lemma str_contains_chars (s sub : string) (c : ascii) :
  str_contains s sub = true → c ∈ chars sub → c ∈ chars s.
Proof.
  induction s as [|b s IH]; cbn [str_contains]; intros H Hc.
  - apply orb_true_iff in H as [H|H]; [|done]. by apply (prefix_chars sub).
  - apply orb_true_iff in H as [H|H].
    + by apply (prefix_chars sub (String b s)).
    + unfold chars. cbn [list_ascii_of_string]. apply elem_of_cons. right.
      by apply IH.
Qed.

Lemma removed_marks_contained :
  Forall (fun mark => str_contains punctuations mark = true)
         (py_list string_punctuation ++ [""; ".."; "..."; "’"]).
Proof. by_compute. Qed.

(** X1. [remove_punctuation] keeps the order of the tokens it keeps; it
    removes every mark of [string.punctuation] and also the empty
    token, [..], [...] and the typographic apostrophe; it keeps every
    token that has a character outside the punctuation string; and
    cleaning twice is cleaning once. *)
Theorem remove_punctuation_marks (token_vector : list (list string)) :
  Forall (fun mark => mark ∉ concat (remove_punctuation token_vector))
         (py_list string_punctuation ++ [""; ".."; "..."; "’"])
  ∧ Forall2 (fun sentence cleaned =>
               cleaned `sublist_of` sentence
               ∧ ∀ word c, word ∈ sentence → c ∈ chars word →
                           c ∉ chars punctuations → word ∈ cleaned)
            token_vector (remove_punctuation token_vector)
  ∧ remove_punctuation (remove_punctuation token_vector)
    = remove_punctuation token_vector.
Proof.
  split; [|split].
  - eapply Forall_impl; [exact removed_marks_contained|].
    intros mark Hm Hin. apply elem_of_concat in Hin as (cleaned & Hin & Hc).
    apply list_elem_of_fmap in Hc as (sentence & -> & _).
    apply list_elem_of_filter in Hin as [Hin _]. congruence.
  - apply Forall2_fmap_r, Forall_Forall2_diag, Forall_forall.
    intros sentence _. split; [apply sublist_filter|].
    intros word c Hw Hc Hout. apply list_elem_of_filter. split; [|done].
    destruct (str_contains punctuations word) eqn:H; [|done].
    exfalso. apply Hout. by apply (str_contains_chars _ word).
  - unfold remove_punctuation. rewrite map_map. apply map_ext.
    intros sentence. apply filter_idem.
Qed.

Lemma remove_punctuation_marks_witness :
  "hello" ∈ ["hello"; ","; "..."; "--"]
  ∧ remove_punctuation [["hello"; ","; "..."; "--"]] = [["hello"; "--"]].
Proof.
  destruct (remove_punctuation_marks [["hello"; ","; "..."; "--"]])
    as (_ & Hkeep & _).
  apply Forall2_cons_1 in Hkeep as [[_ Hkeep] _].
  split; [|reflexivity].
  assert ("hello" ∈ filter (fun word => str_contains punctuations word = false)
                          ["hello"; ","; "..."; "--"]) as H.
  { apply (Hkeep "hello" "h"%char); by_compute. }
  by_compute.
Defined.

(** X2. Stop words are either counted or kept: for every sentence the
    number of stop words plus the number of tokens [remove_stopwords]
    keeps is the number of tokens; after [remove_stopwords] no stop word
    is left to count; and removing twice is removing once. *)
Theorem stopwords_counted_or_kept
        (token_vector : list (list string)) (stopwords_language : list string) :
  zip_with Nat.add
           (number_stopwords token_vector stopwords_language)
           (map length (remove_stopwords token_vector stopwords_language))
  = map length token_vector
  ∧ number_stopwords (remove_stopwords token_vector stopwords_language)
                     stopwords_language
    = map (fun _ => 0) token_vector
  ∧ remove_stopwords (remove_stopwords token_vector stopwords_language)
                     stopwords_language
    = remove_stopwords token_vector stopwords_language.
Proof.
  unfold number_stopwords, remove_stopwords. split; [|split].
  - induction token_vector as [|sentence tv IH]; [done|].
    cbn [map zip_with]. rewrite IH. f_equal.
    clear IH. induction sentence as [|w s IH]; [done|].
    rewrite !filter_cons. destruct (decide (w ∈ stopwords_language)) as [Hw|Hw].
    + rewrite decide_False by (intros H; done). simpl in *. lia.
    + rewrite decide_True by done. simpl in *. lia.
  - rewrite map_map. apply map_ext. intros sentence.
    assert (filter (fun word => word ∈ stopwords_language)
                   (filter (fun word => word ∉ stopwords_language) sentence) = [])
      as ->; [|done].
    apply elem_of_nil_inv. intros w Hw.
    apply list_elem_of_filter in Hw as [Hin Hw].
    apply list_elem_of_filter in Hw as [Hout _]. done.
  - rewrite map_map. apply map_ext. intros sentence. apply filter_idem.
Qed.

Lemma chars_translate_delete (deletechars word : string) :
  chars (translate_delete deletechars word)
  = filter (fun c => str_member c deletechars = false) (chars word).
Proof.
  unfold chars. induction word as [|c word IH]; [done|].
  cbn [translate_delete list_ascii_of_string]. rewrite filter_cons.
  destruct (str_member c deletechars); simpl.
  - exact IH.
  - by rewrite IH.
Qed.

Lemma str_member_chars (c : ascii) (s : string) :
  str_member c s = true ↔ c ∈ chars s.
Proof.
  unfold chars. induction s as [|c' s IH]; simpl.
  - split; [done | intros H; by apply elem_of_nil in H].
  - rewrite elem_of_cons. destruct (decide (c' = c)) as [->|Hne].
    + split; auto.
    + rewrite IH. split; [auto | intros [?|?]; [congruence | done]].
Qed.

Lemma chars_inj (s1 s2 : string) : chars s1 = chars s2 → s1 = s2.
Proof.
  unfold chars. intros H.
  rewrite <- (string_of_list_ascii_of_string s1), H.
  apply string_of_list_ascii_of_string.
Qed.

(** X3. [remove_numbers] keeps every token in its place and deletes the
    digits inside the tokens: each sentence keeps its number of tokens
    (a token made of digits only becomes the empty token), no digit is
    left in any token, the other characters stay in their order, and
    removing twice is removing once. *)
Theorem remove_numbers_deletes_digits (token_vector : list (list string)) :
  map length (remove_numbers token_vector) = map length token_vector
  ∧ Forall2 (Forall2 (fun word cleaned =>
                        chars cleaned
                        = filter (fun c => c ∉ chars string_digits) (chars word)))
            token_vector (remove_numbers token_vector)
  ∧ Forall (Forall (fun word => ∀ c, c ∈ chars word → c ∉ chars string_digits))
           (remove_numbers token_vector)
  ∧ remove_numbers (remove_numbers token_vector) = remove_numbers token_vector.
Proof.
  assert (∀ word, chars (translate_delete string_digits word)
                  = filter (fun c => c ∉ chars string_digits) (chars word)) as Hchars.
  { intros word. rewrite chars_translate_delete. apply list_filter_iff.
    intros c. rewrite <- str_member_chars. by destruct (str_member c string_digits). }
  unfold remove_numbers. split; [|split; [|split]].
  - rewrite map_map. apply map_ext. intros sentence. apply length_map.
  - apply Forall2_fmap_r, Forall_Forall2_diag, Forall_forall. intros sentence _.
    apply Forall2_fmap_r, Forall_Forall2_diag, Forall_forall. intros word _.
    apply Hchars.
  - apply Forall_forall. intros cleaned Hc.
    apply list_elem_of_fmap in Hc as (sentence & -> & _).
    apply Forall_forall. intros word Hw.
    apply list_elem_of_fmap in Hw as (word' & -> & _).
    intros c Hc. rewrite Hchars in Hc. by apply list_elem_of_filter in Hc as [Hc _].
  - rewrite map_map. apply map_ext. intros sentence.
    rewrite map_map. apply map_ext. intros word.
    apply chars_inj. rewrite !Hchars. apply filter_idem.
Qed.

End PreprocessTextProofs.

(** ** Counting tokens *)
Module CountingProofs.
Import PreprocessData PreprocessText PreprocessTextSpec PreprocessTextProofs.

Lemma sum_list_pointwise {A : Type} (f g : A → nat) (l : list A) :
  sum_list (map (fun x => f x + g x) l) = sum_list (map f l) + sum_list (map g l).
Proof. induction l as [|x l IH]; simpl; [done|]. rewrite IH. lia. Qed.

Lemma sum_list_indicator (w : string) (marks : list string) :
  NoDup marks →
  sum_list (map (fun m => if decide (w = m) then 1 else 0) marks)
  = if decide (w ∈ marks) then 1 else 0.
Proof.
  induction marks as [|m marks IH]; intros Hnd; [done|].
  apply NoDup_cons in Hnd as [Hm Hnd]. simpl. rewrite (IH Hnd).
  destruct (decide (w = m)) as [->|Hne].
  - rewrite decide_False by done. rewrite decide_True; [done|].
    apply elem_of_cons. by left.
  - destruct (decide (w ∈ marks)) as [Hin|Hnin].
    + rewrite decide_True; [done|]. apply elem_of_cons. by right.
    + rewrite decide_False; [done|]. intros Hin.
      apply elem_of_cons in Hin as [?|?]; done.
Qed.

(** Membership counted mark by mark. *)
Lemma count_by_mark (marks sentence : list string) :
  NoDup marks →
  length (filter (fun word => word ∈ marks) sentence)
  = sum_list (map (fun m => length (filter (fun word => word = m) sentence)) marks).
Proof.
  intros Hnd. induction sentence as [|w s IH].
  - simpl. induction marks as [|m marks IHm]; [done|].
    apply NoDup_cons in Hnd as [_ Hnd]. simpl. by rewrite <- IHm.
  - rewrite filter_cons.
    transitivity (sum_list (map (fun m => (if decide (w = m) then 1 else 0)
                                          + length (filter (fun word => word = m) s))
                                marks)).
    + rewrite sum_list_pointwise, <- IH, (sum_list_indicator _ _ Hnd).
      by destruct (decide (w ∈ marks)).
    + f_equal. apply map_ext. intros m. rewrite filter_cons.
      by destruct (decide (w = m)).
Qed.

Lemma counted_marks_list :
  list_remove "." (py_list string_punctuation)
  = Ok (filter (fun mark => mark ≠ ".") (py_list string_punctuation)).
Proof. vm_compute. reflexivity. Qed.

Lemma counted_marks_NoDup : NoDup counted_marks.
Proof. by_compute. Qed.

Lemma sum_vectors (token_vector : list (list string))
      (f : string → list string → nat) (marks : list string) :
  foldr (zip_with Nat.add) (map (fun _ => 0) token_vector)
        (map (fun m => map (f m) token_vector) marks)
  = map (fun sentence => sum_list (map (fun m => f m sentence) marks)) token_vector.
Proof.
  induction marks as [|m marks IH]; [done|].
  cbn [map foldr]. rewrite IH. clear IH.
  induction token_vector as [|s tv IH]; [done|].
  cbn [map zip_with]. by rewrite IH.
Qed.

(** X4. The total punctuation count is the sum, over the punctuation
    marks other than the full stop and over the ellipsis, of the counts
    [number_punctuation_marks] gives for the single marks. *)
Theorem number_punctuations_total_sums_marks (sentence_vector : list (list string)) :
  number_punctuations_total sentence_vector
  = Ok (foldr (zip_with Nat.add) (map (fun _ => 0) sentence_vector)
              (map (number_punctuation_marks sentence_vector) counted_marks))
  ∧ length counted_marks = 32
  ∧ "." ∉ counted_marks.
Proof.
  split; [|split; by_compute].
  unfold number_punctuations_total. rewrite counted_marks_list.
  cbn [mbind result_bind]. f_equal.
  unfold number_punctuation_marks.
  rewrite (sum_vectors sentence_vector
             (fun m sentence => length (filter (fun word => word = m) sentence))).
  apply map_ext. intros sentence. apply count_by_mark. exact counted_marks_NoDup.
Qed.

(** *** Words and punctuation together *)

Lemma single_char_contained (s : string) (c : ascii) :
  str_contains s (String c EmptyString) = true →
  String c EmptyString ∈ py_list s.
Proof.
  unfold py_list. induction s as [|b s IH]; cbn [str_contains]; intros H.
  - by apply orb_true_iff in H as [H|H].
  - cbn [list_ascii_of_string map]. apply elem_of_cons.
    apply orb_true_iff in H as [H|H].
    + left. simpl in H. destruct (ascii_dec c b) as [->|]; done.
    + right. by apply IH.
Qed.

Lemma marks_are_single_characters :
  Forall (fun mark => str_contains string_punctuation mark = true
                      ∧ String.length mark = 1)
         (py_list string_punctuation).
Proof. by_compute. Qed.

(** What one token adds to the two counts. *)
Lemma token_accounting (word : string) :
  PunctuationSpec.contribution word
  + (if decide (str_contains string_punctuation word = false) then 1 else 0)
  + (if decide (word = ".") then 1 else 0)
  + (if decide (str_contains string_punctuation word = true
                ∧ String.length word ≠ 1) then 1 else 0)
  = 1 + (if decide (word = "...") then 1 else 0).
Proof.
  unfold PunctuationSpec.contribution.
  destruct (decide (word = ".")) as [->|Hstop]; [by vm_compute|].
  destruct (decide (word = "...")) as [->|Hell]; [by vm_compute|].
  destruct (decide (word ∈ py_list string_punctuation)) as [Hin|Hnin].
  - pose proof marks_are_single_characters as H. rewrite Forall_forall in H.
    destruct (H word Hin) as [Hc Hl]. rewrite Hc.
    rewrite decide_False by done. rewrite decide_False; [done|]. intros [_ ?]; done.
  - destruct (str_contains string_punctuation word) eqn:Hc.
    + rewrite decide_False by done. rewrite decide_True; [done|]. split; [done|].
      intros Hl. apply Hnin. destruct word as [|c [|c' word]]; try done.
      by apply single_char_contained.
    + rewrite decide_True by done. rewrite decide_False; [done|]. intros [? _]; done.
Qed.

(** X5. The two counts that make up the length used for normalising,
    [number_punctuations_total + number_words], do not add up to the
    number of tokens: every ellipsis is counted twice (as a mark and as a
    word), and a full stop, an empty token or a run of several
    punctuation characters that occurs in [string.punctuation] (such as
    [()]) is counted by neither. *)
Theorem punctuation_and_words_accounting (sentence_vector : list (list string)) :
  ∃ totals,
    number_punctuations_total sentence_vector = Ok totals
    ∧ zip_with Nat.add
        (zip_with Nat.add totals (number_words sentence_vector))
        (map (fun sentence =>
                count (fun word => word = ".") sentence
                + count (fun word => str_contains string_punctuation word = true
                                     ∧ String.length word ≠ 1) sentence)
             sentence_vector)
      = map (fun sentence => length sentence + count (fun word => word = "...") sentence)
            sentence_vector.
Proof.
  unfold number_punctuations_total.
  destruct (PunctuationProofs.list_remove_present
              _ _ PunctuationProofs.full_stop_is_punctuation) as [l Hl].
  rewrite Hl. cbn [mbind result_bind]. eexists. split; [done|].
  unfold number_words, count.
  induction sentence_vector as [|sentence sv IH]; [done|].
  cbn [map zip_with]. rewrite IH. f_equal. clear IH.
  rewrite (PunctuationProofs.sentence_count l sentence Hl).
  induction sentence as [|w s IH]; [done|].
  rewrite !filter_cons. pose proof (token_accounting w) as Hw.
  cbn [map]. simpl sum_list.
  destruct (decide (str_contains string_punctuation w = false));
    destruct (decide (w = "."));
    destruct (decide (str_contains string_punctuation w = true
                      ∧ String.length w ≠ 1));
    destruct (decide (w = "...")); simpl in *; lia.
Qed.

(** *** Distinct words *)

Lemma length_remove_dups_le (l : list string) :
  (length (remove_dups l) ≤ length l)%nat
  ∧ (length (remove_dups l) = length l ↔ NoDup l).
Proof.
  induction l as [|x l [IH1 IH2]]; simpl.
  - split; [done|]. split; [constructor | done].
  - destruct (decide_rel elem_of x l) as [Hin|Hnin].
    + split; [lia|]. split; [lia|]. intros Hnd. by apply NoDup_cons in Hnd as [? _].
    + simpl. split; [lia|]. rewrite NoDup_cons. split.
      * intros H. split; [done|]. apply IH2. lia.
      * intros [_ Hnd]. f_equal. by apply IH2.
Qed.

(** X6. There are at most as many distinct words as words; as many
    exactly when no two counted words are equal up to NUL characters at
    their end (which the array of [np.unique] drops); and none exactly
    when there is no word. *)
Theorem number_unique_words_bound (sentence_vector : list (list string)) :
  Forall2 (fun sentence counts =>
             (counts.1 ≤ counts.2)%nat
             ∧ (counts.1 = counts.2 ↔
                NoDup (map rstrip_nul
                           (filter (fun word =>
                                      str_contains string_punctuation word = false)
                                   sentence)))
             ∧ (counts.1 = 0 ↔ counts.2 = 0))
          sentence_vector
          (zip (number_unique_words sentence_vector) (number_words sentence_vector)).
Proof.
  unfold number_unique_words, number_words, np_unique.
  induction sentence_vector as [|sentence sv IH]; [constructor|].
  cbn [map zip zip_with]. constructor; [|exact IH]. cbn [fst snd].
  destruct (length_remove_dups_le
              (map rstrip_nul
                   (filter (fun word => str_contains string_punctuation word = false)
                           sentence))) as [Hle Heq].
  rewrite length_map in Hle, Heq.
  split; [done|]. split; [done|].
  destruct (filter _ sentence) as [|w ws] eqn:Hf; [done|].
  split; [|done]. intros H0. apply length_zero_iff_nil in H0.
  assert (rstrip_nul w ∈ remove_dups (map rstrip_nul (w :: ws))) as Hw
      by (apply elem_of_remove_dups, elem_of_cons; by left).
  rewrite H0 in Hw. by apply elem_of_nil in Hw.
Qed.

(** Two words that differ in a NUL character at the end count as one. *)
Lemma number_unique_words_nul :
  number_unique_words [["a"; String "a" (String zero ""); "b"]] = [2]
  ∧ number_words [["a"; String "a" (String zero ""); "b"]] = [3].
Proof. by_compute. Qed.

(** *** Characters per word *)

Lemma py_len_positive (word : string) :
  well_encoded word → word ≠ "" → (1 ≤ py_len word)%nat.
Proof.
  destruct word as [|c word]; [done|]. simpl. intros -> _. simpl. lia.
Qed.

Lemma characters_at_least_words (sentence : list string) :
  Forall well_encoded sentence →
  (length (filter (fun word => str_contains string_punctuation word = false) sentence)
   ≤ sum_list (map py_len
                   (filter (fun word => str_contains string_punctuation word = false)
                           sentence)))%nat.
Proof.
  induction 1 as [|w s Hw _ IH]; [done|]. rewrite filter_cons.
  destruct (decide (str_contains string_punctuation w = false)) as [Hc|Hc]; [|done].
  assert (1 ≤ py_len w)%nat; [|simpl in *; lia]. apply py_len_positive; [done|].
  intros ->. vm_compute in Hc. discriminate Hc.
Qed.

Lemma series_div_columns {A : Type} (f g : A → Z) (l : list A) :
  series_div (map f l) (map g l) = map (fun x => true_divide (f x) (g x)) l.
Proof. induction l as [|x l IH]; simpl; [done|]. by rewrite IH. Qed.

(** X7. Every counted word has at least one character: the number of
    characters of a sentence is at least its number of words, and the
    average [average_characters] computes from the two counts of a
    sentence is 0 when the sentence has no word and at least 1
    otherwise. *)
Theorem characters_per_word_at_least_one (sentence_vector : list (list string)) :
  Forall (Forall well_encoded) sentence_vector →
  Forall2 (fun words characters => (words ≤ characters)%nat)
          (number_words sentence_vector) (number_characters sentence_vector)
  ∧ Forall2 (fun words average =>
               (words = 0%nat → average = Fin 0)
               ∧ (words ≠ 0%nat → ∃ q, average = Fin q ∧ (1 <= q)%Q))
            (number_words sentence_vector)
            (average_characters
               (map Z.of_nat (number_characters sentence_vector))
               (map Z.of_nat (number_words sentence_vector))).
Proof.
  intros Hwf. unfold number_words, number_characters. split.
  - apply Forall2_fmap, Forall_Forall2_diag. eapply Forall_impl; [exact Hwf|].
    intros sentence Hs. by apply characters_at_least_words.
  - rewrite AverageCharactersProofs.average_characters_scrub.
    rewrite !map_map, series_div_columns, map_map.
    apply Forall2_fmap, Forall_Forall2_diag. eapply Forall_impl; [exact Hwf|].
    intros sentence Hs. cbv beta.
    pose proof (characters_at_least_words sentence Hs) as Hle.
    rewrite AverageCharactersProofs.scrub_true_divide.
    destruct (Z.eqb_spec (Z.of_nat (length (filter
               (fun word => str_contains string_punctuation word = false) sentence))) 0)
      as [H0|H0].
    + split; [done|]. intros Hne. lia.
    + split; [intros Heq; lia|]. intros _.
      eexists. split; [done|]. apply Qle_shift_div_l.
      * rewrite <- (Zlt_Qlt 0). lia.
      * rewrite Qmult_1_l, <- Zle_Qle. lia.
Qed.

Lemma characters_per_word_at_least_one_witness :
  Forall2 (fun words characters => (words ≤ characters)%nat)
          (number_words [["ein"; "haus"; "."]; [","]])
          (number_characters [["ein"; "haus"; "."]; [","]])
  ∧ Forall2 (fun words average =>
               (words = 0%nat → average = Fin 0)
               ∧ (words ≠ 0%nat → ∃ q, average = Fin q ∧ (1 <= q)%Q))
            (number_words [["ein"; "haus"; "."]; [","]])
            (average_characters
               (map Z.of_nat (number_characters [["ein"; "haus"; "."]; [","]]))
               (map Z.of_nat (number_words [["ein"; "haus"; "."]; [","]]))).
Proof.
  apply (characters_per_word_at_least_one [["ein"; "haus"; "."]; [","]]).
  repeat constructor.
Defined.

End CountingProofs.

(** ** Word embeddings, in general *)
Module WordEmbeddingsMoreProofs.
Import PreprocessData WordEmbeddingsSpec WordEmbeddingsProofs WordEmbeddingsMoreSpec.

Lemma mapM_Ok_iff {A B : Type} (f : A → result B) (l : list A) (k : list B) :
  mapM f l = Ok k ↔ Forall2 (fun x y => f x = Ok y) l k.
Proof.
  revert k. induction l as [|x l IH]; intros k; simpl.
  - split; [intros [= <-]; constructor | by inversion 1].
  - split.
    + intros H. apply bind_Ok in H as (y & Hy & H).
      apply bind_Ok in H as (k' & Hk & [= <-]). constructor; [done|]. by apply IH.
    + inversion 1 as [|? y ? k' Hy Hk]; subst. rewrite Hy. simpl.
      apply IH in Hk. rewrite Hk. done.
Qed.

Lemma mapM_Raise {A B : Type} (f : A → result B) (l : list A) (x : A) (e : exn) :
  x ∈ l → f x = Raise e → ∃ e', mapM f l = Raise e'.
Proof.
  intros Hin Hx. induction l as [|y l IH]; [by apply elem_of_nil in Hin|].
  simpl. destruct (f y) as [b|e1] eqn:Hy; simpl; [|by eexists].
  apply elem_of_cons in Hin as [->|Hin]; [congruence|].
  destruct (IH Hin) as [e' ->]. simpl. by eexists.
Qed.

Lemma ndarray_row_in_bounds {A : Type} (array : list A) (i : Z) :
  (∃ row, ndarray_row array i = Ok row) ↔ in_bounds array i.
Proof.
  unfold ndarray_row, in_bounds.
  destruct (Z.ltb_spec i 0) as [Hneg|Hpos].
  - destruct (Z.ltb_spec (i + Z.of_nat (length array)) 0) as [Hlow|Hlow].
    + split; [intros [row [=]] | lia].
    + destruct (array !! Z.to_nat (i + Z.of_nat (length array))) as [row|] eqn:Hrow.
      * split; [intros _; lia | by eexists].
      * apply lookup_ge_None in Hrow. split; [intros [row [=]] | lia].
  - destruct (Z.ltb_spec i 0) as [?|_]; [lia|].
    destruct (array !! Z.to_nat i) as [row|] eqn:Hrow.
    + apply lookup_lt_Some in Hrow. split; [intros _; lia | by eexists].
    + apply lookup_ge_None in Hrow. split; [intros [row [=]] | lia].
Qed.

Lemma truthy_index_looked_up (embedding_dictionary : gmap string Z) (token : string) :
  truthy_index embedding_dictionary token = true
  ↔ looked_up embedding_dictionary token.
Proof.
  unfold truthy_index, looked_up, bool_of_int.
  destruct (embedding_dictionary !! token) as [i|].
  - destruct (Z.eqb_spec i 0) as [->|Hne]; simpl.
    + split; [done | intros (j & [= <-] & Hj); done].
    + split; [intros _; by exists i | done].
  - split; [done | intros (j & [=] & _)].
Qed.

Section Frames.
Context {A : Type}.
Variable embedding_array : list (list A).
Variable embedding_dictionary : gmap string Z.

Abbreviation step := (embedding_step embedding_array embedding_dictionary).

Lemma embedding_loop_Ok (token_list : list string) (d : ODict.t (list A)) :
  (∀ token i, token ∈ token_list → embedding_dictionary !! token = Some i →
              i ≠ 0%Z → in_bounds embedding_array i) →
  ∃ d', for_each step d token_list = Ok d'.
Proof.
  revert d. induction token_list as [|t ts IH]; intros d Hb; [by eexists|].
  rewrite for_each_cons.
  assert (∃ d1, step d t = Ok d1) as [d1 ->].
  { unfold WordEmbeddingsSpec.embedding_step, bool_of_int.
    destruct (embedding_dictionary !! t) as [i|] eqn:Hi; [|by eexists].
    destruct (Z.eqb_spec i 0) as [->|Hne]; simpl; [by eexists|].
    destruct (proj2 (ndarray_row_in_bounds embedding_array i)) as [row ->].
    - apply (Hb t); [apply elem_of_cons; by left | done..].
    - simpl. by eexists. }
  simpl. apply IH. intros token i Hin. apply Hb, elem_of_cons. by right.
Qed.

Lemma keys_setitem (d : ODict.t (list A)) (k : string) (v : list A) :
  ODict.keys (ODict.setitem d k v)
  = if decide (k ∈ ODict.keys d) then ODict.keys d else ODict.keys d ++ [k].
Proof.
  unfold ODict.keys. induction d as [|[k0 v0] d IH]; [done|].
  simpl. destruct (decide (k0 = k)) as [->|Hne]; simpl.
  - rewrite decide_True; [done|]. apply elem_of_cons. by left.
  - destruct (decide (k ∈ d.*1)) as [Hin|Hnin].
    + rewrite decide_True by (apply elem_of_cons; by right).
      f_equal. exact IH.
    + rewrite decide_False.
      * simpl. f_equal. exact IH.
      * intros Hin. apply elem_of_cons in Hin as [?|?]; [congruence | done].
Qed.

Lemma embedding_loop_keys (token_list : list string) (d d' : ODict.t (list A)) :
  for_each step d token_list = Ok d' →
  ODict.keys d'
  = foldl (fun seen x => if decide (x ∈ seen) then seen else seen ++ [x])
          (ODict.keys d)
          (filter (fun token => truthy_index embedding_dictionary token = true)
                  token_list).
Proof.
  revert d. induction token_list as [|t ts IH]; intros d H.
  - by injection H as <-.
  - rewrite for_each_cons in H. apply bind_Ok in H as (d1 & Hstep & H).
    rewrite (IH _ H). rewrite filter_cons.
    apply embedding_step_Ok in Hstep as [(Hl & i & row & _ & _ & ->)|[Hl ->]].
    + apply truthy_index_looked_up in Hl. rewrite decide_True by done.
      simpl. by rewrite keys_setitem.
    + rewrite decide_False; [done|]. by rewrite truthy_index_looked_up.
Qed.

End Frames.

(** X8. [word_embeddings] completes exactly when every token that has a
    dictionary index other than 0 has an index inside the embedding
    array (from minus its length up to its length minus one); otherwise
    the [IndexError] of the array lookup ends the call. *)
Theorem word_embeddings_completes_iff {A : Type}
        (token_vector : list (list string)) (embedding_array : list (list A))
        (embedding_dictionary : gmap string Z) :
  ((∃ frames,
       word_embeddings token_vector embedding_array embedding_dictionary = Ok frames)
   ↔ ∀ token i, token ∈ concat token_vector →
                embedding_dictionary !! token = Some i → i ≠ 0%Z →
                in_bounds embedding_array i)
  ∧ ∀ e, word_embeddings token_vector embedding_array embedding_dictionary = Raise e →
         e = IndexError.
Proof.
  unfold word_embeddings. split; [split|].
  - intros [frames H] token i Hin Hi Hne.
    apply PreprocessTextProofs.elem_of_concat in Hin as (tokens & Hin & Htv).
    apply ndarray_row_in_bounds.
    destruct (ndarray_row embedding_array i) as [row|e] eqn:Hrow; [by eexists|].
    exfalso.
    destruct (mapM_Raise (token_list_embedding embedding_array embedding_dictionary)
                         token_vector tokens IndexError Htv) as [e' He];
      [|congruence].
    eapply embedding_loop_Raise; [done..| |done].
    unfold bool_of_int. by rewrite (proj2 (Z.eqb_neq i 0)).
  - intros Hb.
    assert (∀ tokens, tokens ∈ token_vector →
                      ∃ frame, token_list_embedding embedding_array
                                 embedding_dictionary tokens = Ok frame) as Hall.
    { intros tokens Htv. apply embedding_loop_Ok. intros token i Hin.
      apply Hb, PreprocessTextProofs.elem_of_concat. eauto. }
    clear Hb. induction token_vector as [|tokens tv IH]; [by eexists|].
    simpl. destruct (Hall tokens) as [frame ->]; [apply elem_of_cons; by left|].
    destruct IH as [frames ->]; [|by eexists].
    intros tokens' Hin. apply Hall, elem_of_cons. by right.
  - induction token_vector as [|tokens tv IH]; intros e; [done|].
    simpl. destruct (token_list_embedding _ _ tokens) as [frame|e1] eqn:Hf; simpl.
    + destruct (mapM _ tv) as [frames|e2]; simpl; [done|].
      intros [= <-]. by apply IH.
    + intros [= <-]. clear IH.
      change (for_each (embedding_step embedding_array embedding_dictionary)
                       [] tokens = Raise e1) in Hf.
      revert Hf. generalize (@nil (string * list A)).
      induction tokens as [|t ts IH]; intros d Hf; [done|].
      rewrite for_each_cons in Hf.
      destruct (embedding_step embedding_array embedding_dictionary d t)
        as [d1|e2] eqn:Hstep; [exact (IH _ Hf)|].
      injection Hf as <-. unfold WordEmbeddingsSpec.embedding_step in Hstep.
      destruct (embedding_dictionary !! t) as [i|]; [|done].
      destruct (bool_of_int i); [|done].
      destruct (ndarray_row embedding_array i) as [row|e3] eqn:Hrow; [done|].
      injection Hstep as <-. by apply ndarray_row_Raise in Hrow.
Qed.

Lemma word_embeddings_completes_iff_witness :
  in_bounds WordEmbeddingsSpec.two_rows (-1)
  ∧ ∃ frames,
      word_embeddings [["cat"; "dog"]] WordEmbeddingsSpec.two_rows
                      (<["dog" := (-1)%Z]> WordEmbeddingsSpec.two_words)
      = Ok frames.
Proof.
  assert (∀ i, i = 1%Z ∨ i = (-1)%Z → in_bounds WordEmbeddingsSpec.two_rows i) as Hb
      by (intros i [->| ->]; vm_compute; intuition discriminate).
  split; [apply Hb; by right|].
  apply (proj1 (word_embeddings_completes_iff _ _ _)).
  intros token i Hin Hi Hne. apply Hb.
  simpl in Hin. rewrite !elem_of_cons, elem_of_nil in Hin.
  destruct Hin as [->|[->|[]]]; vm_compute in Hi; injection Hi as <-; auto.
Defined.

Lemma first_occurrences_from_NoDup (seen l : list string) :
  NoDup seen →
  NoDup (foldl (fun seen x => if decide (x ∈ seen) then seen else seen ++ [x])
               seen l).
Proof.
  revert seen. induction l as [|x l IH]; intros seen Hseen; [done|].
  simpl. apply IH. destruct (decide (x ∈ seen)) as [Hin|Hnin]; [done|].
  apply NoDup_app. split; [done|]. split; [|apply NoDup_singleton].
  intros y Hy Hy'. apply list_elem_of_singleton in Hy'. by subst.
Qed.

(** X9. In each frame [word_embeddings] returns, the columns are the
    distinct tokens of the sentence whose dictionary index is not 0, in
    the order of their first occurrence (a repeated token gets one
    column), and the column of a token is the row of the embedding array
    at the token's index. *)
Theorem word_embeddings_frames {A : Type}
        (token_vector : list (list string)) (embedding_array : list (list A))
        (embedding_dictionary : gmap string Z) (frames : list (ODict.t (list A))) :
  word_embeddings token_vector embedding_array embedding_dictionary = Ok frames →
  Forall2 (fun token_list frame =>
             ODict.keys frame
             = first_occurrences
                 (filter (fun token => truthy_index embedding_dictionary token = true)
                         token_list)
             ∧ NoDup (ODict.keys frame)
             ∧ ∀ token i, token ∈ token_list →
                          embedding_dictionary !! token = Some i → i ≠ 0%Z →
                          ODict.getitem frame token = ndarray_row embedding_array i)
          token_vector frames.
Proof.
  unfold word_embeddings. rewrite mapM_Ok_iff. intros Hall.
  eapply Forall2_impl; [exact Hall|]. clear Hall. intros token_list frame H.
  pose proof (embedding_loop_keys embedding_array embedding_dictionary
                                  token_list [] frame H) as Hkeys.
  split; [exact Hkeys|]. split.
  - rewrite Hkeys. apply first_occurrences_from_NoDup. constructor.
  - intros token i Hin Hi Hne.
    apply token_list_embedding_columns in H as [_ Hrows].
    destruct (Hrows token Hin) as (j & Hj & Hrow); [by exists i|].
    rewrite Hi in Hj. injection Hj as <-. done.
Qed.

Lemma word_embeddings_frames_witness :
  ∃ frame,
    word_embeddings [["cat"; "the"; "cat"]] WordEmbeddingsSpec.two_rows
                    WordEmbeddingsSpec.two_words = Ok [frame]
    ∧ ODict.keys frame = ["cat"].
Proof.
  destruct (word_embeddings [["cat"; "the"; "cat"]] WordEmbeddingsSpec.two_rows
                            WordEmbeddingsSpec.two_words) as [frames|e] eqn:Hrun;
    [|vm_compute in Hrun; discriminate Hrun].
  pose proof (word_embeddings_frames _ _ _ _ Hrun) as H.
  apply Forall2_cons_inv_l in H as (frame & rest & (Hkeys & _) & Hrest & ->).
  apply Forall2_nil_inv_l in Hrest as ->.
  exists frame. split; [reflexivity|]. rewrite Hkeys. reflexivity.
Defined.

End WordEmbeddingsMoreProofs.

(** ** Translation dictionaries, in general *)
Module TranslationMoreProofs.
Import PreprocessData TranslationSpec TranslationProofs.
Import WordEmbeddingsSpec WordEmbeddingsMoreSpec WordEmbeddingsMoreProofs.
Import TranslationMoreSpec.
Local Open Scope Q_scope.

Lemma embedding_of_truthy (embedding_array : list (list Q))
      (embedding_dictionary : gmap string Z) (token : string) (row : list Q) :
  embedding_of embedding_array embedding_dictionary token = Some row →
  truthy_index embedding_dictionary token = true.
Proof.
  unfold embedding_of, truthy_index.
  destruct (embedding_dictionary !! token) as [i|]; [|done].
  by destruct (bool_of_int i).
Qed.

Lemma truthy_index_Some (embedding_dictionary : gmap string Z) (token : string) :
  truthy_index embedding_dictionary token = true
  ↔ ∃ i, embedding_dictionary !! token = Some i ∧ i ≠ 0%Z.
Proof. apply truthy_index_looked_up. Qed.

(** The translation loop adds entries for its tokens only. *)
Lemma translation_loop_domain (embedding_dictionary : gmap string Z)
      (word_embedding_dictionary : ODict.t (list Q))
      (embedding_subset : list (list Q))
      (embedding_subset_dictionary : gmap nat string)
      (tokens : list string) (m m' : gmap string string) (s : string) :
  for_each (translation_step embedding_dictionary word_embedding_dictionary
                             embedding_subset embedding_subset_dictionary)
           m tokens = Ok m' →
  is_Some (m' !! s) →
  is_Some (m !! s) ∨ (s ∈ tokens ∧ truthy_index embedding_dictionary s = true).
Proof.
  revert m. induction tokens as [|x xs IH]; intros m H Hs.
  - injection H as <-. by left.
  - rewrite for_each_cons in H. apply bind_Ok in H as (m1 & Hstep & H).
    destruct (IH _ H Hs) as [Hm1|[Hin Ht]].
    2:{ right. split; [apply elem_of_cons; by right | done]. }
    unfold translation_step in Hstep.
    destruct (embedding_dictionary !! x) as [i|] eqn:Hi;
      [|injection Hstep as <-; by left].
    destruct (bool_of_int i) eqn:Hb; [|injection Hstep as <-; by left].
    apply bind_Ok in Hstep as (t & _ & [= <-]).
    destruct (decide (x = s)) as [->|Hne].
    + right. split; [apply elem_of_cons; by left|].
      unfold truthy_index. by rewrite Hi.
    + left. by rewrite lookup_insert_ne in Hm1.
Qed.

(** One direction of [create_translation_dictionary], characterised. *)
Lemma translations_characterised
      (tokens others : list string)
      (embedding_array embedding_array_other : list (list Q))
      (embedding_dictionary embedding_dictionary_other : gmap string Z)
      (st st_other : subset_state) (translations : gmap string string) :
  NoDup tokens → NoDup others →
  for_each (subset_step embedding_array embedding_dictionary)
           (0%nat, [], ∅) tokens = Ok st →
  for_each (subset_step embedding_array_other embedding_dictionary_other)
           (0%nat, [], ∅) others = Ok st_other →
  for_each (translation_step embedding_dictionary st.1.2
                             (ODict.values st_other.1.2) st_other.2)
           ∅ tokens = Ok translations →
  nearest_neighbour_map translations tokens others
                        embedding_array embedding_dictionary
                        embedding_array_other embedding_dictionary_other.
Proof.
  intros Hnd Hnd' Hsub Hsub' Hloop.
  pose proof (translations_nearest _ _ _ _ _ _ _ _ _ Hnd Hnd' Hsub Hsub' Hloop)
    as Hnear.
  assert (∀ s, is_Some (translations !! s) →
               s ∈ tokens ∧ truthy_index embedding_dictionary s = true) as Hdom.
  { intros s Hs.
    destruct (translation_loop_domain _ _ _ _ _ _ _ s Hloop Hs) as [H|H]; [|done].
    rewrite lookup_empty in H. by destruct H. }
  split.
  - intros s. split; [apply Hdom|]. intros [Hin Ht].
    apply truthy_index_Some in Ht as (i & Hi & Hne).
    destruct (Hnear s i Hin Hi Hne) as (t & _ & _ & Ht & _). by eexists.
  - intros s t Hst. destruct (Hdom s) as [Hin Ht]; [by eexists|].
    apply truthy_index_Some in Ht as (i & Hi & Hne).
    destruct (Hnear s i Hin Hi Hne) as (t0 & v & w & Ht0 & Hin0 & Hv & Hw & Hmax).
    rewrite Hst in Ht0. injection Ht0 as <-.
    split; [done|]. split; [by eapply embedding_of_truthy|]. by exists v, w.
Qed.

(** Both directions. *)
Lemma create_translation_dictionary_maps
        (token_vector_source token_vector_target : list (list string))
        (embedding_array_normalized_source : list (list Q))
        (embedding_dictionary_source : gmap string Z)
        (embedding_array_normalized_target : list (list Q))
        (embedding_dictionary_target : gmap string Z)
        (to_target to_source : gmap string string) :
  create_translation_dictionary
    token_vector_source token_vector_target
    embedding_array_normalized_source embedding_dictionary_source
    embedding_array_normalized_target embedding_dictionary_target
  = Ok (to_target, to_source) →
  nearest_neighbour_map to_target
                        (concat token_vector_source) (concat token_vector_target)
                        embedding_array_normalized_source embedding_dictionary_source
                        embedding_array_normalized_target embedding_dictionary_target
  ∧ nearest_neighbour_map to_source
                          (concat token_vector_target) (concat token_vector_source)
                          embedding_array_normalized_target embedding_dictionary_target
                          embedding_array_normalized_source embedding_dictionary_source.
Proof.
  unfold create_translation_dictionary, py_set. intros H.
  apply bind_Ok in H as ([[k1 wed1] esd1] & Hsub1 & H).
  apply bind_Ok in H as ([[k2 wed2] esd2] & Hsub2 & H).
  apply bind_Ok in H as (m1 & Hloop1 & H).
  apply bind_Ok in H as (m2 & Hloop2 & H). injection H as <- <-.
  pose proof (NoDup_remove_dups (concat token_vector_source)) as Hnd1.
  pose proof (NoDup_remove_dups (concat token_vector_target)) as Hnd2.
  pose proof (translations_characterised _ _ _ _ _ _ _ _ _ Hnd1 Hnd2 Hsub1 Hsub2 Hloop1)
    as [Hd1 Hv1].
  pose proof (translations_characterised _ _ _ _ _ _ _ _ _ Hnd2 Hnd1 Hsub2 Hsub1 Hloop2)
    as [Hd2 Hv2].
  split; split.
  - intros s. rewrite Hd1. by rewrite elem_of_remove_dups.
  - intros s t Hst. destruct (Hv1 s t Hst) as (Hin & Ht & v & w & Hv & Hw & Hmax).
    rewrite elem_of_remove_dups in Hin. split; [done|]. split; [done|].
    exists v, w. split; [done|]. split; [done|].
    intros t' w' Ht'. apply Hmax. by apply elem_of_remove_dups.
  - intros s. rewrite Hd2. by rewrite elem_of_remove_dups.
  - intros s t Hst. destruct (Hv2 s t Hst) as (Hin & Ht & v & w & Hv & Hw & Hmax).
    rewrite elem_of_remove_dups in Hin. split; [done|]. split; [done|].
    exists v, w. split; [done|]. split; [done|].
    intros t' w' Ht'. apply Hmax. by apply elem_of_remove_dups.
Qed.



(** *** Languages without embeddings *)

Lemma subset_loop_none (embedding_array : list (list Q))
      (embedding_dictionary : gmap string Z)
      (tokens : list string) (st : subset_state) :
  (∀ token, token ∈ tokens → truthy_index embedding_dictionary token = false) →
  for_each (subset_step embedding_array embedding_dictionary) st tokens = Ok st.
Proof.
  intros Hnone. induction tokens as [|t ts IH]; [done|].
  rewrite for_each_cons.
  assert (subset_step embedding_array embedding_dictionary st t = Ok st) as ->.
  { specialize (Hnone t ltac:(apply elem_of_cons; by left)).
    unfold subset_step, truthy_index in *. destruct st as [[k wed] esd].
    destruct (embedding_dictionary !! t) as [i|]; [|done]. by rewrite Hnone. }
  simpl. apply IH. intros token Hin. apply Hnone, elem_of_cons. by right.
Qed.

Lemma translation_loop_none (embedding_dictionary : gmap string Z)
      (word_embedding_dictionary : ODict.t (list Q))
      (embedding_subset : list (list Q))
      (embedding_subset_dictionary : gmap nat string)
      (tokens : list string) (m : gmap string string) :
  (∀ token, token ∈ tokens → truthy_index embedding_dictionary token = false) →
  for_each (translation_step embedding_dictionary word_embedding_dictionary
                             embedding_subset embedding_subset_dictionary)
           m tokens = Ok m.
Proof.
  intros Hnone. induction tokens as [|t ts IH]; [done|].
  rewrite for_each_cons.
  assert (translation_step embedding_dictionary word_embedding_dictionary
                           embedding_subset embedding_subset_dictionary m t = Ok m)
    as ->.
  { specialize (Hnone t ltac:(apply elem_of_cons; by left)).
    unfold translation_step, truthy_index in *.
    destruct (embedding_dictionary !! t) as [i|]; [|done]. by rewrite Hnone. }
  simpl. apply IH. intros token Hin. apply Hnone, elem_of_cons. by right.
Qed.

(** X11. Embeddings on one side only make [create_translation_dictionary]
    fail: when some token of one language has a dictionary index other
    than 0 and no token of the other language has one, the call raises.
    When no token of either language has one, it returns two empty
    dictionaries. *)
Theorem create_translation_dictionary_without_embeddings
        (token_vector_source token_vector_target : list (list string))
        (embedding_array_normalized_source : list (list Q))
        (embedding_dictionary_source : gmap string Z)
        (embedding_array_normalized_target : list (list Q))
        (embedding_dictionary_target : gmap string Z) :
  ((∀ s, s ∈ concat token_vector_source →
         truthy_index embedding_dictionary_source s = false) →
   (∀ t, t ∈ concat token_vector_target →
         truthy_index embedding_dictionary_target t = false) →
   create_translation_dictionary
     token_vector_source token_vector_target
     embedding_array_normalized_source embedding_dictionary_source
     embedding_array_normalized_target embedding_dictionary_target
   = Ok (∅, ∅))
  ∧ (∀ s, s ∈ concat token_vector_source →
          truthy_index embedding_dictionary_source s = true →
          (∀ t, t ∈ concat token_vector_target →
                truthy_index embedding_dictionary_target t = false) →
          ∃ e, create_translation_dictionary
                 token_vector_source token_vector_target
                 embedding_array_normalized_source embedding_dictionary_source
                 embedding_array_normalized_target embedding_dictionary_target
               = Raise e)
  ∧ (∀ t, t ∈ concat token_vector_target →
          truthy_index embedding_dictionary_target t = true →
          (∀ s, s ∈ concat token_vector_source →
                truthy_index embedding_dictionary_source s = false) →
          ∃ e, create_translation_dictionary
                 token_vector_source token_vector_target
                 embedding_array_normalized_source embedding_dictionary_source
                 embedding_array_normalized_target embedding_dictionary_target
               = Raise e).
Proof.
  split; [|split].
  - intros Hs Ht. unfold create_translation_dictionary, py_set.
    assert (∀ token, token ∈ remove_dups (concat token_vector_source) →
                     truthy_index embedding_dictionary_source token = false) as Hs'
        by (intros token Hin; by apply Hs, elem_of_remove_dups).
    assert (∀ token, token ∈ remove_dups (concat token_vector_target) →
                     truthy_index embedding_dictionary_target token = false) as Ht'
        by (intros token Hin; by apply Ht, elem_of_remove_dups).
    rewrite (subset_loop_none _ _ _ _ Hs'). cbn [mbind result_bind].
    rewrite (subset_loop_none _ _ _ _ Ht'). cbn [mbind result_bind].
    rewrite (translation_loop_none _ _ _ _ _ _ Hs'). cbn [mbind result_bind].
    rewrite (translation_loop_none _ _ _ _ _ _ Ht'). done.
  - intros s Hs Ht Hnone.
    destruct (create_translation_dictionary
                token_vector_source token_vector_target
                embedding_array_normalized_source embedding_dictionary_source
                embedding_array_normalized_target embedding_dictionary_target)
      as [[to_target to_source]|e] eqn:Hrun; [|by exists e].
    exfalso. apply create_translation_dictionary_nearest in Hrun as [Hnear _].
    apply truthy_index_Some in Ht as (i & Hi & Hne).
    destruct (Hnear s i Hs Hi Hne) as (t & v & w & _ & Hin & _ & Hw & _).
    apply embedding_of_truthy in Hw. rewrite (Hnone t Hin) in Hw. done.
  - intros t Hin Ht Hnone.
    destruct (create_translation_dictionary
                token_vector_source token_vector_target
                embedding_array_normalized_source embedding_dictionary_source
                embedding_array_normalized_target embedding_dictionary_target)
      as [[to_target to_source]|e] eqn:Hrun; [|by exists e].
    exfalso. apply create_translation_dictionary_nearest in Hrun as [_ Hnear].
    apply truthy_index_Some in Ht as (i & Hi & Hne).
    destruct (Hnear t i Hin Hi Hne) as (s & v & w & _ & Hs & _ & Hw & _).
    apply embedding_of_truthy in Hw. rewrite (Hnone s Hs) in Hw. done.
Qed.

Lemma create_translation_dictionary_without_embeddings_witness :
  create_translation_dictionary [["katze"]] [["cat"]]
                                source_array source_dictionary
                                target_array target_dictionary
  = Ok (∅, ∅)
  ∧ ∃ e, create_translation_dictionary [["haus"]] [["cat"]]
                                       source_array source_dictionary
                                       target_array target_dictionary
         = Raise e.
Proof.
  split.
  - apply (proj1 (create_translation_dictionary_without_embeddings _ _ _ _ _ _)).
    + intros s Hs. simpl in Hs. apply list_elem_of_singleton in Hs as ->. reflexivity.
    + intros t Ht. simpl in Ht. apply list_elem_of_singleton in Ht as ->. reflexivity.
  - apply (proj1 (proj2 (create_translation_dictionary_without_embeddings
                           _ _ _ _ _ _)) "haus").
    + by_compute.
    + reflexivity.
    + intros t Ht. simpl in Ht. apply list_elem_of_singleton in Ht as ->. reflexivity.
Defined.

Lemma filter_ext_in {A : Type} (P Q : A → Prop)
      `{∀ x, Decision (P x)} `{∀ x, Decision (Q x)} (l : list A) :
  (∀ x, x ∈ l → P x ↔ Q x) → filter P l = filter Q l.
Proof.
  induction l as [|x l IH]; intros Hext; [done|]. rewrite !filter_cons.
  rewrite IH by (intros y Hy; apply Hext, elem_of_cons; by right).
  destruct (decide (P x)) as [Hp|Hp].
  - rewrite decide_True; [done|]. apply Hext; [apply elem_of_cons; by left | done].
  - rewrite decide_False; [done|]. intros Hq. apply Hp.
    apply Hext; [apply elem_of_cons; by left | done].
Qed.

Lemma length_omap_filter {A B : Type} (f : A → option B) (l : list A) :
  length (omap f l) = length (filter (fun x => is_Some (f x)) l).
Proof.
  induction l as [|x l IH]; [done|]. rewrite filter_cons.
  destruct (decide (is_Some (f x))) as [[y Hy]|Hn]; simpl; rewrite <- IH.
  - by rewrite Hy.
  - destruct (f x) as [y|]; [|done]. exfalso. apply Hn. by eexists.
Qed.

(** X12. Translating the source sentences with the dictionary built
    from them: [translate_words] returns, for each sentence, as many
    words as the sentence has tokens with a dictionary index other than
    0, and every word returned is a token of the target sentences with
    an index other than 0. *)
Theorem translate_source_sentences
        (token_vector_source token_vector_target : list (list string))
        (embedding_array_normalized_source : list (list Q))
        (embedding_dictionary_source : gmap string Z)
        (embedding_array_normalized_target : list (list Q))
        (embedding_dictionary_target : gmap string Z)
        (to_target to_source : gmap string string) :
  create_translation_dictionary
    token_vector_source token_vector_target
    embedding_array_normalized_source embedding_dictionary_source
    embedding_array_normalized_target embedding_dictionary_target
  = Ok (to_target, to_source) →
  ∃ translated,
    translate_words token_vector_source to_target = Ok translated
    ∧ Forall2 (fun sentence words =>
                 length words
                 = length (filter (fun token =>
                                     truthy_index embedding_dictionary_source token
                                     = true) sentence)
                 ∧ Forall (fun word =>
                             word ∈ concat token_vector_target
                             ∧ truthy_index embedding_dictionary_target word = true)
                          words)
              token_vector_source translated.
Proof.
  intros Hrun.
  destruct (create_translation_dictionary_maps _ _ _ _ _ _ _ _ Hrun)
    as [[Hdom Hval] _].
  rewrite TranslateWordsProofs.translate_words_spec. eexists. split; [done|].
  apply Forall2_fmap_r, Forall_Forall2_diag, Forall_forall.
  intros sentence Hsent. split.
  - rewrite length_omap_filter. f_equal. apply filter_ext_in.
    intros token Hin. rewrite Hdom. split; [by intros [_ ?]|]. intros Ht.
    split; [|done]. apply PreprocessTextProofs.elem_of_concat. eauto.
  - apply Forall_forall. intros word Hw.
    apply list_elem_of_omap in Hw as (token & _ & Ht).
    destruct (Hval _ _ Ht) as (Hin & Htr & _). done.
Qed.

Lemma translate_source_sentences_witness :
  ∃ words,
    translate_words [["katze"; "haus"]] (<["haus" := "house"]> ∅) = Ok [words]
    ∧ length words = 1%nat.
Proof.
  destruct (translate_source_sentences
              [["katze"; "haus"]] [["cat"; "house"]]
              source_array source_dictionary target_array target_dictionary
              (<["haus" := "house"]> ∅) (<["house" := "haus"]> ∅))
    as (translated & Hrun & Hall); [vm_compute; reflexivity|].
  apply Forall2_cons_inv_l in Hall as (words & rest & [Hlen _] & Hrest & ->).
  apply Forall2_nil_inv_l in Hrest as ->.
  exists words. split; [exact Hrun|]. rewrite Hlen. reflexivity.
Defined.

End TranslationMoreProofs.

(** ** The columns of the sample *)
Module DataSetMoreProofs.
Import Pandas PandasProofs DataSetClass DataSetSpec DataSetProofs.

Lemma union_labels_NoDup (a b : list string) :
  NoDup a → NoDup b → NoDup (union_labels a b).
Proof.
  intros Ha Hb. unfold union_labels. apply NoDup_app. split; [done|]. split.
  - intros x Hx Hx'. by apply list_elem_of_filter in Hx' as [? _].
  - by apply NoDup_filter.
Qed.

(** The two parts [get_sample] stacks, for a call within range. *)
Lemma get_sample_parts (n : Z) (self : DataSet) (g : rng) :
  proper self → in_range n self →
  ∃ R W g',
    get_sample n self g
    = Ok ({| preprocessed_dataframe := preprocessed_dataframe self;
             preprocessed_source := preprocessed_source self;
             preprocessed_target := preprocessed_target self;
             dataset :=
               Some (reset_index
                       {| index := index R ++ index W;
                          columns :=
                            map (fun c => (c, column_or_nan c R ++ column_or_nan c W))
                                (union_labels (names R) (names W)) |}) |}, g')
    ∧ nrows R = Z.to_nat n ∧ nrows W = Z.to_nat n
    ∧ well_formed R ∧ well_formed W
    ∧ names R = names (preprocessed_dataframe self)
    ∧ NoDup (names W)
    ∧ ∀ c, c ∈ names W ↔
           c ∈ names (preprocessed_source self)
           ∨ c ∈ names (preprocessed_target self) ∨ c = "Translation".
Proof.
  intros [Hwf1 Hwf2 Hwf3 Hnd1 Hnd23] (Hn0 & Hn1 & Hn2 & Hn3).
  unfold get_sample.
  destruct (sample_Ok n (preprocessed_dataframe self) g ltac:(lia)) as [-> Hd1].
  destruct (choice (Z.to_nat n) (seq 0 (nrows (preprocessed_dataframe self))) g)
    as [ps1 g1]. cbn [mbind result_bind fst snd] in *.
  destruct (sample_Ok n (preprocessed_source self) g1 ltac:(lia)) as [-> Hd2].
  destruct (choice (Z.to_nat n) (seq 0 (nrows (preprocessed_source self))) g1)
    as [ps2 g2]. cbn [mbind result_bind fst snd] in *.
  destruct (sample_Ok n (preprocessed_target self) g2 ltac:(lia)) as [-> Hd3].
  destruct (choice (Z.to_nat n) (seq 0 (nrows (preprocessed_target self))) g2)
    as [ps3 g3]. cbn [mbind result_bind fst snd] in *.
  assert (length ps1 = Z.to_nat n) as Hl1 by (destruct Hd1; lia).
  assert (length ps2 = Z.to_nat n) as Hl2 by (destruct Hd2; lia).
  assert (length ps3 = Z.to_nat n) as Hl3 by (destruct Hd3; lia).
  set (S' := take_rows ps2 (preprocessed_source self)).
  set (T' := take_rows ps3 (preprocessed_target self)).
  set (R := reset_index (take_rows ps1 (preprocessed_dataframe self))).
  rewrite (concat_columns_reset S' T');
    [|apply well_formed_take_rows|apply well_formed_take_rows
     |unfold S', T'; rewrite !nrows_take_rows; lia].
  assert (nrows S' = Z.to_nat n) as HnS by (unfold S'; by rewrite nrows_take_rows).
  rewrite HnS.
  set (W0 := {| index := seq 0 (Z.to_nat n); columns := columns S' ++ columns T' |}).
  assert (nrows W0 = Z.to_nat n) as HnW0 by (unfold nrows; simpl; apply length_seq).
  assert (well_formed W0) as HwfW0.
  { unfold well_formed. rewrite HnW0. simpl. apply Forall_app. split.
    - rewrite <- Hl2. apply columns_take_rows_length.
    - rewrite <- Hl3. apply columns_take_rows_length. }
  assert (names W0 = names (preprocessed_source self)
                     ++ names (preprocessed_target self)) as HnamesW0.
  { unfold names at 1. cbn [columns W0]. rewrite fmap_app.
    f_equal; apply names_take_rows. }
  destruct (setitem_spec W0 "Translation" (np_zeros (nrows W0)))
    as (W & -> & HiW & HwfW & HndW & HtrW & HotherW & HnamesW).
  { unfold np_zeros. apply length_replicate. }
  { done. }
  { by rewrite HnamesW0. }
  cbn [mbind result_bind].
  assert (nrows W = Z.to_nat n) as HnW by (unfold nrows; by rewrite HiW).
  assert (nrows R = Z.to_nat n) as HnR
      by (unfold R, nrows; simpl; rewrite length_seq, <- Hl1;
          apply nrows_take_rows).
  assert (well_formed R) as HwfR.
  { unfold well_formed. rewrite HnR. simpl.
    rewrite <- Hl1. apply columns_take_rows_length. }
  assert (names R = names (preprocessed_dataframe self)) as HnamesR
      by apply names_take_rows.
  rewrite (concat_rows_NoDup R W) by (by rewrite ?HnamesR).
  cbn [mbind result_bind].
  exists R, W, g3. split; [done|]. repeat (split; [done|]).
  intros c.
  assert (c ∈ names W ↔ c ∈ names W0 ∨ c = "Translation") as Hiff.
  { split.
    - intros Hc. destruct (decide (c = "Translation")) as [->|Hne]; [by right|left].
      destruct (get_is_Some (columns W) c Hc) as [vs Hvs]. fold (column c W) in Hvs.
      rewrite (HotherW c Hne) in Hvs. by apply get_Some_key in Hvs as [? _].
    - intros [Hc| ->]; [by apply HnamesW|]. by apply get_Some_key in HtrW as [? _]. }
  rewrite Hiff, HnamesW0, elem_of_app. tauto.
Qed.

(** X13. After [get_sample n] (within range) the three preprocessed
    frames are as before; the dataset has one column for every label of
    the parallel, the source and the target frame and for [Translation],
    each with 2n cells; a column the parallel frame lacks is NaN on the
    first n rows, and a column that only the parallel frame has is NaN
    on the last n rows. *)
Theorem get_sample_columns (n : Z) (self : DataSet) (g : rng) :
  proper self → in_range n self →
  ∃ self' g' ds,
    get_sample n self g = Ok (self', g')
    ∧ dataset self' = Some ds
    ∧ preprocessed_dataframe self' = preprocessed_dataframe self
    ∧ preprocessed_source self' = preprocessed_source self
    ∧ preprocessed_target self' = preprocessed_target self
    ∧ well_formed ds
    ∧ nrows ds = (Z.to_nat n + Z.to_nat n)%nat
    ∧ NoDup (names ds)
    ∧ (∀ c, c ∈ names ds ↔
            c ∈ names (preprocessed_dataframe self)
            ∨ c ∈ names (preprocessed_source self)
            ∨ c ∈ names (preprocessed_target self) ∨ c = "Translation")
    ∧ (∀ c col, column c ds = Some col →
                c ∉ names (preprocessed_dataframe self) →
                take (Z.to_nat n) col = replicate (Z.to_nat n) NaN)
    ∧ (∀ c col, column c ds = Some col →
                c ∉ names (preprocessed_source self) →
                c ∉ names (preprocessed_target self) → c ≠ "Translation" →
                drop (Z.to_nat n) col = replicate (Z.to_nat n) NaN).
Proof.
  intros Hp Hn.
  destruct (get_sample_parts n self g Hp Hn)
    as (R & W & g' & Hrun & HnR & HnW & HwfR & HwfW & HnamesR & HndW & HnamesW).
  eexists _, g', _. split; [exact Hrun|]. split; [done|].
  repeat (split; [done|]).
  assert (NoDup (names R)) as HndR by (rewrite HnamesR; apply Hp).
  assert (∀ l : list string,
             (map (fun c => (c, column_or_nan c R ++ column_or_nan c W)) l).*1 = l)
    as Hfst.
  { intros l. induction l as [|c l IH]; [done|]. simpl. f_equal. exact IH. }
  split; [|split; [|split; [|split; [|split]]]].
  - unfold well_formed, reset_index, nrows. simpl. rewrite length_seq.
    apply Forall_forall. intros c Hc.
    apply list_elem_of_fmap in Hc as (c' & -> & _). simpl.
    rewrite !length_app, !length_column_or_nan by done. done.
  - unfold reset_index, nrows. simpl. rewrite length_seq, length_app.
    fold (nrows R) (nrows W). lia.
  - unfold names at 1. unfold reset_index. cbn [columns]. rewrite Hfst.
    by apply union_labels_NoDup.
  - intros c. unfold names at 1. unfold reset_index. cbn [columns].
    rewrite Hfst, elem_of_union_labels, HnamesR, HnamesW. tauto.
  - intros c col Hcol Hc. unfold column, reset_index in Hcol. simpl in Hcol.
    rewrite (get_tabulate (fun c => column_or_nan c R ++ column_or_nan c W)) in Hcol.
    destruct (decide (c ∈ union_labels (names R) (names W))); [|done].
    injection Hcol as <-.
    rewrite take_app_length' by (by rewrite length_column_or_nan).
    unfold column_or_nan, column.
    rewrite (proj2 (ODictProofs.get_None _ _)); [by rewrite HnR|].
    change (c ∉ names R). by rewrite HnamesR.
  - intros c col Hcol Hs Ht Htr. unfold column, reset_index in Hcol. simpl in Hcol.
    rewrite (get_tabulate (fun c => column_or_nan c R ++ column_or_nan c W)) in Hcol.
    destruct (decide (c ∈ union_labels (names R) (names W))); [|done].
    injection Hcol as <-.
    rewrite drop_app_length' by (by rewrite length_column_or_nan).
    unfold column_or_nan, column.
    rewrite (proj2 (ODictProofs.get_None _ _)); [by rewrite HnW|].
    change (c ∉ names W). rewrite HnamesW. tauto.
Qed.

Lemma get_sample_columns_witness :
  ∃ self' g' ds,
    get_sample 2 three_pairs [5; 3; 1; 7; 2; 2; 9] = Ok (self', g')
    ∧ dataset self' = Some ds
    ∧ nrows ds = 4%nat
    ∧ NoDup (names ds).
Proof.
  destruct (get_sample_columns 2 three_pairs [5; 3; 1; 7; 2; 2; 9]
                               three_pairs_proper)
    as (self' & g' & ds & Hrun & Hds & _ & _ & _ & _ & Hrows & Hnd & _).
  - vm_compute. intuition discriminate.
  - exists self', g', ds. split; [exact Hrun|]. split; [exact Hds|].
    split; [exact Hrows | exact Hnd].
Defined.

End DataSetMoreProofs.

(** ** Missing columns and repeated calls of [feature_generation] *)
Module FeatureGenerationMoreProofs.
Import FeatureGenerationClass FeatureGenerationSpec FeatureGenerationProofs.

Lemma setitem_same {V : Type} (d : ODict.t V) (k : string) (v : V) :
  ODict.get k d = Some v → ODict.setitem d k v = d.
Proof.
  induction d as [|[k' v'] d IH]; simpl; [done|].
  destruct (decide (k' = k)) as [->|Hne].
  - by intros [= ->].
  - intros H. by rewrite IH.
Qed.

Lemma assign_all_same {V : Type} (d : ODict.t V) (kvs : list (string * V)) :
  (∀ kv, kv ∈ kvs → ODict.get kv.1 d = Some kv.2) → ODict.assign_all d kvs = d.
Proof.
  unfold ODict.assign_all. induction kvs as [|kv kvs IH]; intros Hall; [done|].
  simpl. rewrite setitem_same.
  - apply IH. intros kv' Hin. apply Hall, elem_of_cons. by right.
  - apply Hall, elem_of_cons. by left.
Qed.

Section WithSeries.
Context {Series : Type}.
Variable difference_numerical : Series → Series → Series.
Variable relative_difference_numerical : Series → Series → Series.
Variable normalized_difference_numerical :
  Series → Series → Series → Series → Series.
Variable series_add : Series → Series → Series.

Abbreviation feature_step :=
  (feature_step difference_numerical relative_difference_numerical
                normalized_difference_numerical series_add).
Abbreviation feature_generation :=
  (feature_generation difference_numerical relative_difference_numerical
                      normalized_difference_numerical series_add).
Abbreviation derived_columns :=
  (derived_columns difference_numerical relative_difference_numerical
                   normalized_difference_numerical series_add).

(** X14. [feature_generation] on a fresh object completes exactly when
    the dataset has the columns [F_source] and [F_target] of every stem
    [F] and the column [Translation]; when one of them is missing the
    call raises [KeyError], and it raises nothing else. *)
Theorem feature_generation_key_error (ds : ODict.t Series) :
  match feature_generation (init ds) with
  | Ok self' => has_columns ds
  | Raise e => e = KeyError ∧ ¬ has_columns ds
  end.
Proof.
  destruct (feature_generation (init ds)) as [self'|e] eqn:Hrun.
  - by apply feature_generation_has_columns in Hrun.
  - split; [by apply feature_generation_Raise in Hrun|].
    intros Hcols.
    destruct (feature_generation_total
                difference_numerical relative_difference_numerical
                normalized_difference_numerical series_add ds Hcols)
      as [self' Hrun'].
    congruence.
Qed.

(** X15. Calling [feature_generation] a second time on the same object
    changes nothing: no column is added, moved or altered. *)
Theorem feature_generation_again (ds : ODict.t Series) (self' : FeatureGeneration) :
  feature_generation (init ds) = Ok self' →
  feature_generation self' = Ok self'.
Proof.
  intros Hrun.
  assert (feature_difference_list self' = init_feature_difference_list) as Hl.
  { unfold FeatureGenerationClass.feature_generation in Hrun.
    apply bind_Ok in Hrun as (? & _ & Hrun).
    apply bind_Ok in Hrun as (? & _ & Hrun). by injection Hrun as <-. }
  destruct (feature_generation_inv _ _ _ _ _ _ Hrun)
    as (kvss & tr & Hm & Htr & Hfd & Hds).
  destruct self' as [ds' fd' fl']. simpl in Hl, Hfd, Hds. subst ds' fd' fl'.
  unfold FeatureGenerationClass.feature_generation.
  cbn [preprocessed_dataset feature_dataframe feature_difference_list].
  rewrite loop_columns, Hm. cbn [mbind result_bind].
  unfold ODict.getitem. rewrite Htr. cbn [mbind result_bind].
  assert (NoDup (ODict.keys (concat kvss ++ [("Translation", tr)]))) as Hnd.
  { unfold ODict.keys. rewrite fmap_app, (mapM_derived_labels _ _ _ _ _ _ _ Hm).
    exact labels_NoDup. }
  rewrite assign_all_same.
  - rewrite setitem_same; [done|]. apply ODictProofs.get_elem; [done|].
    apply elem_of_app. right. by apply list_elem_of_singleton.
  - intros [k v] Hin. apply ODictProofs.get_elem; [done|].
    apply elem_of_app. by left.
Qed.

End WithSeries.

Lemma feature_generation_again_witness :
  ∃ self',
    FeatureGenerationClass.feature_generation
      Difference Relative Normalized Plus (init symbolic_dataset) = Ok self'
    ∧ FeatureGenerationClass.feature_generation
        Difference Relative Normalized Plus self' = Ok self'.
Proof.
  destruct (FeatureGenerationClass.feature_generation
              Difference Relative Normalized Plus
              (init symbolic_dataset)) as [self'|e] eqn:Hrun;
    [|vm_compute in Hrun; discriminate Hrun].
  exists self'. split; [reflexivity|].
  exact (feature_generation_again
           Difference Relative Normalized Plus symbolic_dataset self' Hrun).
Defined.

End FeatureGenerationMoreProofs.

(** ** The average sentence embedding of a token list *)
Module SentenceEmbeddingProofs.
Import PreprocessData WordEmbeddingsSpec WordEmbeddingsProofs WordEmbeddingsMoreSpec.
Import WordEmbeddingsMoreProofs TranslationSpec TranslationMoreSpec.
Import SentenceEmbedding SentenceEmbeddingSpec.
Local Open Scope Q_scope.

Lemma ndarray_row_elem {A : Type} (array : list A) (i : Z) (row : A) :
  ndarray_row array i = Ok row → row ∈ array.
Proof.
  unfold ndarray_row. destruct (_ <? 0)%Z; [done|].
  destruct (array !! _) as [row'|] eqn:Hrow; [|done].
  intros [= <-]. by apply list_elem_of_lookup_2 in Hrow.
Qed.

(** The columns of a frame of [word_embeddings] are the embeddings of
    their tokens. *)
Lemma frame_columns (embedding_array : list (list Q))
      (embedding_dictionary : gmap string Z) (token_list : list string)
      (frame : ODict.t (list Q)) :
  token_list_embedding embedding_array embedding_dictionary token_list = Ok frame →
  ODict.keys frame
  = first_occurrences
      (filter (fun token => truthy_index embedding_dictionary token = true)
              token_list)
  ∧ ∀ token row, (token, row) ∈ frame →
                 embedding_of embedding_array embedding_dictionary token = Some row
                 ∧ row ∈ embedding_array.
Proof.
  intros H.
  pose proof (embedding_loop_keys embedding_array embedding_dictionary
                                  token_list [] frame H) as Hkeys.
  split; [exact Hkeys|]. intros token row Hin.
  assert (NoDup (ODict.keys frame)) as Hnd
      by (rewrite Hkeys; apply first_occurrences_from_NoDup; constructor).
  pose proof (ODictProofs.get_elem _ _ _ Hnd Hin) as Hget.
  apply token_list_embedding_columns in H as [Hk Hrows].
  assert (token ∈ ODict.keys frame) as Hkey.
  { unfold ODict.keys. apply list_elem_of_fmap. by exists (token, row). }
  apply Hk in Hkey as [Hintl Hlook].
  destruct (Hrows token Hintl Hlook) as (i & Hi & Hrow).
  unfold ODict.getitem in Hrow. rewrite Hget in Hrow.
  destruct Hlook as (i' & Hi' & Hne). rewrite Hi in Hi'. injection Hi' as <-.
  split; [|by apply ndarray_row_elem in Hrow].
  unfold embedding_of, bool_of_int. rewrite Hi, Hrow.
  by destruct (Z.eqb_spec i 0).
Qed.

Lemma frame_row_components (embedding_array : list (list Q))
      (embedding_dictionary : gmap string Z) (frame : ODict.t (list Q)) (j : nat) :
  (∀ token row, (token, row) ∈ frame →
                embedding_of embedding_array embedding_dictionary token = Some row) →
  frame_row frame j
  = map (component embedding_array embedding_dictionary j) (ODict.keys frame).
Proof.
  unfold frame_row, ODict.values, ODict.keys.
  induction frame as [|[token row] frame IH]; intros Hall; [done|].
  simpl. f_equal.
  - unfold component. rewrite (Hall token row); [done|]. apply elem_of_cons. by left.
  - apply IH. intros t r Hin. apply Hall, elem_of_cons. by right.
Qed.

(** X18. With rational arithmetic in place of doubles, and an embedding
    array of row length [d]: the average sentence embedding of a token
    list is one vector.  It is empty when no token of the list has a
    dictionary index other than 0.  Otherwise it has [d] components, and
    component [j] times the number of distinct such tokens is the sum of
    component [j] of their embeddings: a repeated token counts once. *)
Theorem sentence_embedding_average_tokens
        (token_vector : list (list string)) (embedding_array : list (list Q))
        (embedding_dictionary : gmap string Z) (frames : list (ODict.t (list Q)))
        (d : nat) :
  Forall (fun row => length row = d) embedding_array →
  word_embeddings token_vector embedding_array embedding_dictionary = Ok frames →
  Forall2 (fun token_list result =>
             let tokens :=
               first_occurrences
                 (filter (fun token => truthy_index embedding_dictionary token = true)
                         token_list) in
             ∃ average,
               result = [average]
               ∧ (tokens = [] → average = [])
               ∧ (tokens ≠ [] →
                  length average = d
                  ∧ ∀ j x, average !! j = Some x →
                           x * inject_Z (Z.of_nat (length tokens))
                           == sum (map (component embedding_array
                                                  embedding_dictionary j) tokens)))
          token_vector (sentence_embedding_average frames).
Proof.
  intros Hd Hrun. unfold word_embeddings in Hrun. apply mapM_Ok_iff in Hrun.
  unfold sentence_embedding_average. apply Forall2_fmap_r.
  eapply Forall2_impl; [exact Hrun|]. clear Hrun. intros token_list frame H.
  apply frame_columns in H as [Hkeys Hcols]. cbv zeta. rewrite <- Hkeys.
  exists (mean_axis1 frame). split; [done|]. split.
  - destruct frame; [done | discriminate].
  - intros Hne.
    assert (frame_rows frame = d) as Hrows.
    { destruct frame as [|[token row] frame]; [done|]. simpl.
      destruct (Hcols token row) as [_ Hin]; [apply elem_of_cons; by left|].
      rewrite Forall_forall in Hd. by apply Hd. }
    unfold mean_axis1. rewrite Hrows. split; [by rewrite length_map, length_seq|].
    intros j x Hx. apply list_lookup_fmap_Some in Hx as (j' & -> & Hj).
    apply lookup_seq in Hj as [-> _]. simpl.
    rewrite (frame_row_components embedding_array embedding_dictionary)
      by (intros token row Hin; by apply Hcols).
    unfold ODict.keys at 2. rewrite length_fmap. unfold sum.
    assert (¬ inject_Z (Z.of_nat (length frame)) == 0) as Hk.
    { destruct frame; [done|]. simpl length. unfold Qeq. simpl. lia. }
    field. exact Hk.
Qed.

Lemma sentence_embedding_average_tokens_witness :
  ∃ frames average,
    word_embeddings [["haus"; "hund"; "katze"; "haus"]]
                    german_array german_dictionary
    = Ok frames
    ∧ sentence_embedding_average frames = [[average]]
    ∧ length average = 2%nat
    ∧ ∀ j x, average !! j = Some x →
             x * 2 == sum (map (component german_array german_dictionary j)
                               ["haus"; "hund"]).
Proof.
  destruct (word_embeddings [["haus"; "hund"; "katze"; "haus"]] german_array
                            german_dictionary) as [frames|e] eqn:Hrun;
    [|vm_compute in Hrun; discriminate Hrun].
  pose proof (sentence_embedding_average_tokens
                [["haus"; "hund"; "katze"; "haus"]] german_array german_dictionary
                frames 2 ltac:(repeat constructor) Hrun) as H.
  apply Forall2_cons_inv_l in H as (result & rest & (average & -> & _ & Hmean)
                                    & Hrest & Heq).
  apply Forall2_nil_inv_l in Hrest as ->.
  assert (first_occurrences
            (filter (fun token => truthy_index german_dictionary token = true)
                    ["haus"; "hund"; "katze"; "haus"])
          = ["haus"; "hund"]) as Htokens by (vm_compute; reflexivity).
  rewrite Htokens in Hmean. destruct Hmean as [Hlen Hsum]; [discriminate|].
  exists frames, average. split; [reflexivity|]. split; [exact Heq|].
  split; [exact Hlen | exact Hsum].
Defined.

End SentenceEmbeddingProofs.

